(** * tfnz: session state of a 20ft location and the mount conflict check

    A shallow embedding of [tfnz/volume.py] ([Volume.trees_intersect]),
    of [tfnz/location.py] (the [Location] class) and of the argument
    loops of [tfnz/cli/tf.py], with the properties of the specification
    stated and proved over it. *)

From Stdlib Require Import String Ascii List ZArith QArith Lia Lqa Bool.
From Stdlib Require Import Permutation Sorted.
From Stdlib Require Import DecimalString.
From Stdlib Require Import Floats.PrimFloat Floats.SpecFloat Floats.FloatOps.
Import ListNotations.

Local Open Scope list_scope.
Local Open Scope string_scope.

Definition len (s : string) : nat := String.length s.

(** ** Python strings *)

Module PyStr.

(** [s[:n]] for a non-negative [n]. *)
Definition take (n : nat) (s : string) : string := substring 0 n s.

(** [s[n:]] for a non-negative [n]. *)
Fixpoint drop (n : nat) (s : string) : string :=
  match n, s with
  | O, _ => s
  | S _, EmptyString => EmptyString
  | S n', String _ s' => drop n' s'
  end.

(** [s.startswith(pre)], as CPython does it: compare the first
    [len(pre)] characters. *)
Definition startswith (s pre : string) : bool :=
  (len pre <=? len s)%nat && String.eqb (take (len pre) s) pre.

(** [s.endswith(suf)]: compare the last [len(suf)] characters. *)
Definition endswith (s suf : string) : bool :=
  (len suf <=? len s)%nat
  && String.eqb (drop (len s - len suf) s) suf.

(** [s.split('/')]: the pieces between separators, empty ones kept. *)
Fixpoint split (sep : ascii) (s : string) : list string :=
  match s with
  | EmptyString => [EmptyString]
  | String c s' =>
      if Ascii.eqb c sep then EmptyString :: split sep s'
      else match split sep s' with
           | h :: t => String c h :: t
           | [] => [String c EmptyString]
           end
  end.

(** [sep.join(parts)]. *)
Fixpoint join (sep : string) (parts : list string) : string :=
  match parts with
  | [] => EmptyString
  | [x] => x
  | x :: rest => x ++ sep ++ join sep rest
  end.

(** [a] is a prefix of [b], as a relation on strings. *)
Definition is_prefix (a b : string) : Prop := exists t, b = a ++ t.

(** [a] is a suffix of [b]. *)
Definition is_suffix (a b : string) : Prop := exists h, b = h ++ a.

End PyStr.

(** ** [os.path] on a POSIX host

    [Volume.trees_intersect] normalises with [os.path.abspath].  The
    function below follows CPython's [posixpath.py]; the working directory
    that [os.getcwd()] would return is the argument [cwd]. *)

Module PosixPath.

Definition sep : ascii := "/"%char.

Definition isabs (s : string) : bool := PyStr.startswith s "/".

(** [posixpath.join(a, b)] for two components. *)
Definition join (a b : string) : string :=
  if PyStr.startswith b "/" then b
  else if orb (String.eqb a "") (PyStr.endswith a "/") then a ++ b
  else a ++ "/" ++ b.

(** One round of the component loop of [normpath]; [new_comps] is kept
    with its last element first. *)
Definition normpath_step (initial_slashes : nat) (new_comps : list string)
           (comp : string) : list string :=
  if orb (String.eqb comp "") (String.eqb comp ".") then new_comps
  else if orb (negb (String.eqb comp ".."))
            (orb (andb (Nat.eqb initial_slashes 0)
                       (match new_comps with [] => true | _ => false end))
                 (match new_comps with
                  | last :: _ => String.eqb last ".."
                  | [] => false
                  end))
       then comp :: new_comps
       else match new_comps with
            | _ :: rest => rest
            | [] => []
            end.

Fixpoint repeat_sep (n : nat) : string :=
  match n with
  | O => ""
  | S n' => String sep (repeat_sep n')
  end.

Definition normpath (path : string) : string :=
  if String.eqb path "" then "."
  else
    let initial_slashes :=
      if PyStr.startswith path "/" then
        if andb (PyStr.startswith path "//")
                (negb (PyStr.startswith path "///"))
        then 2%nat else 1%nat
      else 0%nat in
    let comps := PyStr.split sep path in
    let new_comps := fold_left (normpath_step initial_slashes) comps [] in
    let joined := PyStr.join "/" (rev new_comps) in
    let path' := repeat_sep initial_slashes ++ joined in
    if String.eqb path' "" then "." else path'.

Definition abspath (cwd path : string) : string :=
  normpath (if isabs path then path else join cwd path).

End PosixPath.

(** ** [tfnz/volume.py] *)

Module Volume.

(** What [Volume.__init__] stores through [Taggable]: the owner's public
    key, the uuid assigned by the location and the optional tag. *)
Record t := mk { user : string; uuid : string; tag : option string }.

Section TreesIntersect.

(** The normalisation applied to every path, [os.path.abspath]. *)
Variable abspath : string -> string.

(** [Volume.trees_intersect(current, proposed)].  [current] is listed
    in the order the [for] loop visits it; the caller passes a [set],
    so every order can occur. *)
Fixpoint trees_intersect_loop (p : string) (current : list string)
  : option (string * string) :=
  match current with
  | [] => None
  | cur :: rest =>
      let c := abspath cur in
      if (len c <? len p)%nat then
        if String.eqb (PyStr.take (len c) p) c
        then Some (p, c)
        else trees_intersect_loop p rest
      else
        if String.eqb (PyStr.take (len p) c) p
        then Some (c, p)
        else trees_intersect_loop p rest
  end.

Definition trees_intersect (current : list string) (proposed : string)
  : option (string * string) :=
  let p := abspath proposed in
  trees_intersect_loop p current.

(** Two normalised paths conflict when one is a prefix of the other
    or they are equal. *)
Definition paths_conflict (p c : string) : Prop :=
  PyStr.is_prefix p c \/ PyStr.is_prefix c p \/ p = c.

End TreesIntersect.

(** Directory [a] is [b] or an ancestor of [b]: the components of [a]
    are the leading components of [b]. *)
Definition dir_contains (a b : string) : Prop :=
  exists rest, PyStr.split "/" b = (PyStr.split "/" a ++ rest)%list.

End Volume.

(** ** Exceptions *)

Inductive exn :=
| ValueError (msg : string)
| TypeError
| KeyError
| AttributeError
| NotFoundError
| CollaboratorError (reason : string).

Inductive result (A : Type) :=
| Ok (a : A)
| Raise (e : exn).
Arguments Ok {A} a.
Arguments Raise {A} e.

Definition is_ok {A} (r : result A) : bool :=
  match r with Ok _ => true | Raise _ => false end.

(** ** Python's [dict]: string keys, insertion order kept *)

Module Dict.

Definition t (V : Type) := list (string * V).

Fixpoint get {V} (k : string) (d : t V) : option V :=
  match d with
  | [] => None
  | (k', v) :: rest => if String.eqb k k' then Some v else get k rest
  end.

(** [d[k] = v]: an existing key keeps its position. *)
Fixpoint set {V} (k : string) (v : V) (d : t V) : t V :=
  match d with
  | [] => [(k, v)]
  | (k', v') :: rest =>
      if String.eqb k k' then (k, v) :: rest else (k', v') :: set k v rest
  end.


Definition keys {V} (d : t V) : list string := map fst d.
Definition values {V} (d : t V) : list V := map snd d.
Definition items {V} (d : t V) : list (string * V) := d.

(** A dict holds each key once. *)
Definition wf {V} (d : t V) : Prop := NoDup (keys d).

End Dict.

(** ** Python's [sorted(xs, key=key, reverse=True)]

    [sorted] is stable, and with [reverse=True] elements with equal keys
    still keep their original order.  The model inserts from the right, an
    element going in front of the first one whose key is not larger. *)

Section Sorted.
Context {A : Type} (key : A -> Z).

Fixpoint insert_reverse (x : A) (l : list A) : list A :=
  match l with
  | [] => [x]
  | y :: l' =>
      if (key y <=? key x)%Z then x :: y :: l' else y :: insert_reverse x l'
  end.

Definition sorted_reverse (l : list A) : list A :=
  fold_right insert_reverse [] l.
End Sorted.

(** ** The objects a [Location] holds

    [Node], [Tunnel], [WebEndpoint], the containers and the
    [TaggedCollection] are classes of the package whose files are not part
    of this development; they appear here as the data [location.py] reads
    from them. *)

(** Modelled from the spec: a node has an identity and a stats mapping
    with at least the numeric scores [cpu] and [memory]. *)
Record Node := { node_pk : string; stats_cpu : Z; stats_memory : Z }.

(** A container handle; the object's identity is its uuid, [c_parent] is
    what [container.parent()] returns. *)
Record Container := { c_uuid : string; c_parent : string }.


Definition Connection := string.

(** Modelled from the spec: a tunnel has a locally generated uuid, the
    owning container, a remote port, a local port and an optional bind
    address. *)
Record Tunnel := {
  t_uuid : string;
  t_connection : option Connection;
  t_node : string;
  t_container : Container;
  t_port : option Z;
  t_localport : option Z;
  t_bind : option string
}.

Record Cluster := { cluster_uuid : string }.

(** Modelled from the spec: an endpoint has a domain string and the set
    of clusters published on it. *)
Record WebEndpoint := { ep_domain : string; ep_clusters : Dict.t Cluster }.

(** A message pushed by the location. *)
Record Msg := { msg_uuid : string; msg_data : string }.

(** A port as [Container] hands it over: an [int], a [str] or [None]. *)
Inductive PyPort :=
| PortInt (n : Z)
| PortStr (s : string)
| PortNone.

(** An argument that may or may not be a [Volume] instance. *)
Inductive PyObject :=
| IsVolume (v : Volume.t)
| NotAVolume.

Inductive RankBias := cpu | memory.

(** Modelled from the spec: the volume registry.  A volume is identified
    by owner and uuid; removing a volume the registry does not hold fails
    with NotFound, removing a known one takes exactly that volume out. *)
Module TaggedCollection.

Definition t := list Volume.t.

Definition same (v w : Volume.t) : bool :=
  String.eqb (Volume.user v) (Volume.user w)
  && String.eqb (Volume.uuid v) (Volume.uuid w).

Definition contains (v : Volume.t) (c : t) : bool := existsb (same v) c.

Fixpoint remove_first (v : Volume.t) (c : t) : t :=
  match c with
  | [] => []
  | w :: rest => if same v w then rest else w :: remove_first v rest
  end.

Definition remove (v : Volume.t) (c : t) : result t :=
  if contains v c then Ok (remove_first v c) else Raise NotFoundError.

(** No two volumes of the registry share owner and uuid. *)
Fixpoint wf (c : t) : Prop :=
  match c with
  | [] => True
  | w :: rest => contains w rest = false /\ wf rest
  end.

End TaggedCollection.

(** The fields of [Location] the operations below read or write. *)
Record Location := {
  nodes : Dict.t Node;
  volumes : TaggedCollection.t;
  tunnels : Dict.t Tunnel;
  endpoints : Dict.t WebEndpoint;
  last_heartbeat : float;
  conn : option Connection;
  user_pk : string
}.

Definition set_nodes (x : Dict.t Node) (s : Location) : Location :=
  {| nodes := x; volumes := volumes s; tunnels := tunnels s;
     endpoints := endpoints s; last_heartbeat := last_heartbeat s;
     conn := conn s; user_pk := user_pk s |}.

Definition set_volumes (x : TaggedCollection.t) (s : Location) : Location :=
  {| nodes := nodes s; volumes := x; tunnels := tunnels s;
     endpoints := endpoints s; last_heartbeat := last_heartbeat s;
     conn := conn s; user_pk := user_pk s |}.

Definition set_tunnels (x : Dict.t Tunnel) (s : Location) : Location :=
  {| nodes := nodes s; volumes := volumes s; tunnels := x;
     endpoints := endpoints s; last_heartbeat := last_heartbeat s;
     conn := conn s; user_pk := user_pk s |}.

Definition set_endpoints (x : Dict.t WebEndpoint) (s : Location) : Location :=
  {| nodes := nodes s; volumes := volumes s; tunnels := tunnels s;
     endpoints := x; last_heartbeat := last_heartbeat s;
     conn := conn s; user_pk := user_pk s |}.

Definition set_last_heartbeat (x : float) (s : Location) : Location :=
  {| nodes := nodes s; volumes := volumes s; tunnels := tunnels s;
     endpoints := endpoints s; last_heartbeat := x;
     conn := conn s; user_pk := user_pk s |}.

Definition set_conn (x : option Connection) (s : Location) : Location :=
  {| nodes := nodes s; volumes := volumes s; tunnels := tunnels s;
     endpoints := endpoints s; last_heartbeat := last_heartbeat s;
     conn := x; user_pk := user_pk s |}.

(** ** Calls that leave the [Location]

    Every call on a collaborator is recorded together with the state the
    [Location] is in when the call is made. *)

Inductive LogLevel := DEBUG | INFO.

Inductive Call :=
| Logging (level : LogLevel) (text : string)
| EndpointUnpublish (ep : WebEndpoint) (cluster : Cluster)
| TunnelDestroy (t : Tunnel)
| TunnelConnect (t : Tunnel)
| TunnelFromProxy (t : Tunnel) (m : Msg)
| TunnelCloseProxy (t : Tunnel) (m : Msg)
| ConnDisconnect
| ConnSendCmd (cmd : string)
| ConnSendBlockingCmd (cmd : string) (params : list (string * string))
| ContainerWaitUntilReady (c : Container).

Record Event := { ev_call : Call; ev_state : Location }.

Record World := { loc : Location; trace : list Event }.

(** What the collaborators answer.  An outcome is given for the calls
    whose failure the operations or the specification deal with; the other
    calls are recorded and return. *)
Record Env := {
  py_int : string -> result Z;
  new_uuid : Location -> string;
  container_wait_until_ready : Container -> result unit;
  tunnel_connect : Tunnel -> result unit;
  tunnel_from_proxy : Tunnel -> Msg -> result unit;
  tunnel_close_proxy : Tunnel -> Msg -> result unit;
  conn_send_blocking_cmd : string -> list (string * string) -> result Msg
}.

(** What the calls of the teardown answer.  [disconnect] has no
    [try] around [endpoint.unpublish(cluster)], [tunnel.destroy()] and
    [self.conn.disconnect()], and the specification deals with a teardown
    call that fails, so in [disconnect] each of them returns or raises. *)
Record Teardown := {
  endpoint_unpublish : WebEndpoint -> Cluster -> result unit;
  tunnel_destroy : Tunnel -> result unit;
  conn_disconnect : result unit
}.

(** ** State and exceptions *)

Definition M (A : Type) := World -> result A * World.

Definition ret {A} (a : A) : M A := fun w => (Ok a, w).

Definition raise {A} (e : exn) : M A := fun w => (Raise e, w).

Definition bind {A B} (m : M A) (k : A -> M B) : M B :=
  fun w =>
    match m w with
    | (Ok a, w') => k a w'
    | (Raise e, w') => (Raise e, w')
    end.

Notation "x <- m ;; k" := (bind m (fun x => k))
  (at level 61, m at next level, right associativity).
Notation "m ;;; k" := (bind m (fun _ => k))
  (at level 61, right associativity).

(** A pure step, returning or raising. *)
Definition lift {A} (r : result A) : M A := fun w => (r, w).

Definition get_self : M Location := fun w => (Ok (loc w), w).

Definition modify (f : Location -> Location) : M unit :=
  fun w => (Ok tt, {| loc := f (loc w); trace := trace w |}).

Definition record (c : Call) : World -> World :=
  fun w => {| loc := loc w;
              trace := (trace w ++ [{| ev_call := c; ev_state := loc w |}])%list |}.

(** A call that returns. *)
Definition call (c : Call) : M unit := fun w => (Ok tt, record c w).

(** A call whose outcome the environment decides. *)
Definition call_env {A} (c : Call) (outcome : result A) : M A :=
  fun w => (outcome, record c w).

(** [try: body except KeyError: handler]. *)
Definition try_except_KeyError {A} (body handler : M A) : M A :=
  fun w =>
    match body w with
    | (Raise KeyError, w') => handler w'
    | r => r
    end.

Fixpoint for_each {A} (xs : list A) (body : A -> M unit) : M unit :=
  match xs with
  | [] => ret tt
  | x :: rest => body x ;;; for_each rest body
  end.

(** [self.conn.f(...)]: an [AttributeError] once [self.conn] is [None]. *)
Definition with_conn {A} (k : Connection -> M A) : M A :=
  self <- get_self ;;
  match conn self with
  | Some c => k c
  | None => raise AttributeError
  end.

(** [str(b)] for a [bytes] value [b]. *)
Definition str_of_bytes (b : string) : string := "b'" ++ b ++ "'".

(** ** [tfnz/location.py]: the operations of [Location] *)

(** [Location.disconnect]. *)
Definition disconnect (T : Teardown) : M unit :=
  self <- get_self ;;
  match conn self with
  | None => ret tt
  | Some _ =>
      call (Logging INFO "Disconnecting") ;;;
      self <- get_self ;;
      for_each (Dict.values (endpoints self)) (fun endpoint =>
        for_each (Dict.values (ep_clusters endpoint)) (fun cluster =>
          call_env (EndpointUnpublish endpoint cluster)
                   (endpoint_unpublish T endpoint cluster))) ;;;
      modify (set_endpoints []) ;;;
      self <- get_self ;;
      for_each (Dict.values (tunnels self)) (fun tunnel =>
        call_env (TunnelDestroy tunnel) (tunnel_destroy T tunnel)) ;;;
      modify (set_tunnels []) ;;;
      call_env ConnDisconnect (conn_disconnect T) ;;;
      modify (set_conn None) ;;;
      modify (set_nodes [])
  end.

(** [Location.ranked_nodes]; it reads [self.nodes] and nothing else. *)
Definition ranked_nodes (self : Location) (bias : RankBias)
  : result (list Node) :=
  let nodes := Dict.values (nodes self) in
  if Nat.eqb (List.length nodes) 0 then
    Raise (ValueError "The location has no nodes")
  else
    match bias with
    | cpu => Ok (sorted_reverse stats_cpu nodes)
    | memory => Ok (sorted_reverse stats_memory nodes)
    end.

(** [Location.destroy_volume]. *)
Definition destroy_volume (E : Env) (volume : PyObject) : M unit :=
  match volume with
  | NotAVolume => raise TypeError
  | IsVolume v =>
      self <- get_self ;;
      let params := [("user", user_pk self); ("volume", Volume.uuid v)] in
      with_conn (fun _ =>
        call_env (ConnSendBlockingCmd "destroy_volume" params)
                 (conn_send_blocking_cmd E "destroy_volume" params)) ;;;
      call (Logging INFO ("Destroyed volume: " ++ str_of_bytes (Volume.uuid v))) ;;;
      self <- get_self ;;
      match TaggedCollection.remove v (volumes self) with
      | Ok vols => modify (set_volumes vols)
      | Raise e => raise e
      end
  end.

(** [Location.endpoint_for]; it reads [self.endpoints] and nothing else. *)
Fixpoint endpoint_for_loop (items : list (string * WebEndpoint))
         (fqdn : string) : result WebEndpoint :=
  match items with
  | [] => Raise (ValueError ("There is no endpoint capable of serving: " ++ fqdn))
  | (domain, ep) :: rest =>
      if PyStr.endswith fqdn domain then Ok ep
      else endpoint_for_loop rest fqdn
  end.

Definition endpoint_for (self : Location) (fqdn : string)
  : result WebEndpoint :=
  endpoint_for_loop (Dict.items (endpoints self)) fqdn.

(** [Location._heartbeat]; [now1] and [now2] are what the first and the
    second [time.time()] return.  They are binary64 floats, as is the
    timestamp, and the difference is the rounded one Python computes. *)
Definition _heartbeat (now1 now2 : float) : M unit :=
  self <- get_self ;;
  if PrimFloat.ltb (PrimFloat.sub now1 (last_heartbeat self)) 60%float then ret tt
  else
    modify (set_last_heartbeat now2) ;;;
    with_conn (fun _ => call (ConnSendCmd "heartbeat")).

(** [if isinstance(port, str): port = int(port)]. *)
Definition int_if_str (E : Env) (port : PyPort) : result PyPort :=
  match port with
  | PortStr s =>
      match py_int E s with
      | Ok n => Ok (PortInt n)
      | Raise e => Raise e
      end
  | _ => Ok port
  end.

Definition port_value (p : PyPort) : option Z :=
  match p with
  | PortInt n => Some n
  | _ => None
  end.

(** [Tunnel(connection, node, container, port, localport, bind)]; the
    constructor draws the tunnel's uuid. *)
Definition Tunnel_init (E : Env) (self : Location) (container : Container)
           (port localport : PyPort) (bind : option string) : Tunnel :=
  {| t_uuid := new_uuid E self;
     t_connection := conn self;
     t_node := c_parent container;
     t_container := container;
     t_port := port_value port;
     t_localport := port_value localport;
     t_bind := bind |}.

(** [Location._tunnel_onto]. *)
Definition _tunnel_onto (E : Env) (container : Container)
           (port localport : PyPort) (bind : option string) : M Tunnel :=
  port <- lift (int_if_str E port) ;;
  localport <- lift (int_if_str E localport) ;;
  call_env (ContainerWaitUntilReady container)
           (container_wait_until_ready E container) ;;;
  self <- get_self ;;
  let tunnel := Tunnel_init E self container port localport bind in
  modify (fun s => set_tunnels (Dict.set (t_uuid tunnel) tunnel (tunnels s)) s) ;;;
  call_env (TunnelConnect tunnel) (tunnel_connect E tunnel) ;;;
  ret tunnel.


(** [self.tunnels[uuid]]. *)
Definition tunnels_getitem (uuid : string) : M Tunnel :=
  self <- get_self ;;
  match Dict.get uuid (tunnels self) with
  | Some t => ret t
  | None => raise KeyError
  end.

(** [Location._from_proxy]. *)
Definition _from_proxy (E : Env) (msg : Msg) : M unit :=
  try_except_KeyError
    (t <- tunnels_getitem (msg_uuid msg) ;;
     call_env (TunnelFromProxy t msg) (tunnel_from_proxy E t msg))
    (call (Logging DEBUG "Data arrived from a proxy we already closed")).

(** [Location._close_proxy]. *)
Definition _close_proxy (E : Env) (msg : Msg) : M unit :=
  try_except_KeyError
    (t <- tunnels_getitem (msg_uuid msg) ;;
     call_env (TunnelCloseProxy t msg) (tunnel_close_proxy E t msg))
    (call (Logging DEBUG "Asked to close a proxy that we already closed")).




(** The stat a rank bias selects. *)
Definition stat_of (bias : RankBias) : Node -> Z :=
  match bias with
  | cpu => stats_cpu
  | memory => stats_memory
  end.

(** Descending order under a key. *)
Definition descending {A} (key : A -> Z) (l : list A) : Prop :=
  StronglySorted (fun a b => (key b <= key a)%Z) l.

(** The elements of [l] whose key is [k], in the order [l] has them. *)
Definition with_key {A} (key : A -> Z) (k : Z) (l : list A) : list A :=
  filter (fun a => (key a =? k)%Z) l.


(** The calls a teardown of state [s] makes, in order: the log line, one
    unpublish per cluster of every endpoint, one destroy per tunnel, and
    the disconnect of the transport. *)
Definition teardown_calls (s : Location) : list Call :=
  Logging INFO "Disconnecting"
  :: (flat_map (fun ep => map (EndpointUnpublish ep) (Dict.values (ep_clusters ep)))
               (Dict.values (endpoints s))
      ++ map TunnelDestroy (Dict.values (tunnels s))
      ++ [ConnDisconnect])%list.

(** The state a teardown of [s] leaves. *)
Definition torn_down (s : Location) : Location :=
  set_nodes [] (set_conn None (set_tunnels [] (set_endpoints [] s))).

(** In the state in which [tunnel.connect()] is called the registry
    holds the tunnel under its uuid. *)
Definition connect_sees_registered (ev : Event) : Prop :=
  match ev_call ev with
  | TunnelConnect t => Dict.get (t_uuid t) (tunnels (ev_state ev)) = Some t
  | _ => True
  end.

(** ** A small location to run the operations on *)

Definition example_container : Container :=
  {| c_uuid := "c1"; c_parent := "node1" |}.


Definition example_volume : Volume.t := Volume.mk "pk" "vol1" None.

Definition unknown_volume : Volume.t := Volume.mk "pk" "vol9" None.

Definition example_tunnel : Tunnel :=
  {| t_uuid := "t1"; t_connection := Some "tiny.20ft.nz"; t_node := "node1";
     t_container := example_container; t_port := Some 80%Z;
     t_localport := Some 8080%Z; t_bind := None |}.

Definition example_location : Location :=
  {| nodes := [("node1", {| node_pk := "node1"; stats_cpu := 1000;
                            stats_memory := 2000 |});
               ("node2", {| node_pk := "node2"; stats_cpu := 1000;
                            stats_memory := 4000 |});
               ("node3", {| node_pk := "node3"; stats_cpu := 3000;
                            stats_memory := 2000 |})];
     volumes := [example_volume];
     tunnels := [("t1", example_tunnel)];
     endpoints := [("my.com", {| ep_domain := "my.com";
                                 ep_clusters := [("cl1", {| cluster_uuid := "cl1" |})] |})];
     last_heartbeat := 0%float;
     conn := Some "tiny.20ft.nz";
     user_pk := "pk" |}.

Definition example_world : World := {| loc := example_location; trace := [] |}.

(** Collaborators that do what they are asked. *)
Definition obliging_env : Env :=
  {| py_int := fun _ => Ok 80%Z;
     new_uuid := fun _ => "t2";
     container_wait_until_ready := fun _ => Ok tt;
     tunnel_connect := fun _ => Ok tt;
     tunnel_from_proxy := fun _ _ => Ok tt;
     tunnel_close_proxy := fun _ _ => Ok tt;
     conn_send_blocking_cmd := fun _ _ => Ok {| msg_uuid := ""; msg_data := "" |} |}.

(** Collaborators that refuse: the connection of a tunnel fails and the
    location rejects blocking commands. *)
Definition refusing_env : Env :=
  {| py_int := fun _ => Ok 80%Z;
     new_uuid := fun _ => "t2";
     container_wait_until_ready := fun _ => Ok tt;
     tunnel_connect := fun _ => Raise (CollaboratorError "cannot connect");
     tunnel_from_proxy := fun _ _ => Ok tt;
     tunnel_close_proxy := fun _ _ => Ok tt;
     conn_send_blocking_cmd := fun _ _ => Raise (CollaboratorError "rejected") |}.


(** The number a finite float stands for. *)
Definition exact (f : float) : Q :=
  match Prim2SF f with
  | S754_finite s m e =>
      (if s then -1 else 1) * inject_Z (Zpos m) * Qpower 2 e
  | _ => 0
  end.



(** ** More of Python's [str], as [cli/tf.py] uses it *)

Module PyStrOps.

(** [c in s] for a one-character [c]. *)
Fixpoint contains (c : ascii) (s : string) : bool :=
  match s with
  | EmptyString => false
  | String a s' => Ascii.eqb a c || contains c s'
  end.

(** The index of the last [c] in [s], if there is one. *)
Fixpoint rindex (c : ascii) (s : string) : option nat :=
  match s with
  | EmptyString => None
  | String a s' =>
      match rindex c s' with
      | Some i => Some (S i)
      | None => if Ascii.eqb a c then Some 0%nat else None
      end
  end.

(** [s.rfind(c)]: the index of the last [c], or [-1]. *)
Definition rfind (c : ascii) (s : string) : Z :=
  match rindex c s with
  | Some i => Z.of_nat i
  | None => (-1)%Z
  end.

(** Where a slice bound [i] falls in [s]: a negative bound counts from
    the end, and every bound is clamped to the string. *)
Definition bound (s : string) (i : Z) : nat :=
  Z.to_nat (if (i <? 0)%Z then Z.max 0 (Z.of_nat (len s) + i) else i).

(** [s[:i]]. *)
Definition slice_to (s : string) (i : Z) : string := PyStr.take (bound s i) s.

(** [s[i:]]. *)
Definition slice_from (s : string) (i : Z) : string := PyStr.drop (bound s i) s.

(** The longest prefix of [s] made of characters in the class [p], and
    what follows it: how a greedy [[...]+] or [\d+] runs. *)
Fixpoint span (p : ascii -> bool) (s : string) : string * string :=
  match s with
  | EmptyString => (EmptyString, EmptyString)
  | String a s' =>
      if p a then let (run, rest) := span p s' in (String a run, rest)
      else (EmptyString, s)
  end.

Definition all_in (p : ascii -> bool) (s : string) : Prop :=
  forall a, contains a s = true -> p a = true.

Definition in_range (lo hi : ascii) (a : ascii) : bool :=
  (nat_of_ascii lo <=? nat_of_ascii a)%nat && (nat_of_ascii a <=? nat_of_ascii hi)%nat.

(** The class [[0-9A-Z_]]. *)
Definition is_env_char (a : ascii) : bool :=
  in_range "0" "9" a || in_range "A" "Z" a || Ascii.eqb a "_".

(** ["....error in '%s'" % e] and the like, for one [%s]. *)
Definition percent_s (before : string) (arg : string) (after : string) : string :=
  before ++ arg ++ after.

End PyStrOps.

(** ** [tfnz/cli/tf.py]: the argument loops of [main]

    Each loop either goes on with what it has collected, or makes [main]
    return 1 after printing to stderr, or lets an exception out.  The
    text of an argument is a [string] in an encoding that keeps every
    ASCII character as the one byte it is, as UTF-8 does; a character
    beyond ASCII takes several bytes, none of them an ASCII one. *)

Inductive cli (A : Type) :=
| Continue (a : A)
| Return1 (stderr : list string)
| Uncaught (e : exn).
Arguments Continue {A} a.
Arguments Return1 {A} stderr.
Arguments Uncaught {A} e.

Module Tf.

(** [re.match('[0-9A-Z_]+=', e)]: [group(0)] when the pattern matches at
    the start of [e].  The class does not hold "=", so the run of class
    characters cannot be cut short: the match is the whole run and the
    "=" after it. *)
Definition match_env (e : string) : option string :=
  let (run, rest) := PyStrOps.span PyStrOps.is_env_char e in
  match run, rest with
  | String _ _, String "=" _ => Some (run ++ "=")
  | _, _ => None
  end.

(** The body of [for e in args.e]. *)
Fixpoint environment_loop (args_e : list string) (e_vars : list string)
         (environment : list (string * string))
  : cli (list string * list (string * string)) :=
  match args_e with
  | [] => Continue (e_vars, environment)
  | e :: rest =>
      match match_env e with
      | None =>
          Return1 ["Environment variables need to be passed as 'CAPITALS_1234=result' pairs";
                   PyStrOps.percent_s "....error in '" e "'"]
      | Some group0 =>
          let variable := PyStrOps.slice_to group0 (-1) in
          if existsb (String.eqb variable) e_vars then
            Return1 ["Can only pass one value per environment variable.";
                     PyStrOps.percent_s "....error in '" e "'"]
          else
            let value := PyStrOps.slice_from e (Z.of_nat (len variable) + 1) in
            environment_loop rest (e_vars ++ [variable])%list
                             (environment ++ [(variable, value)])%list
      end
  end.

(** [e_vars = set(); environment = []; if args.e is not None: ...]. *)
Definition environment_of (args_e : option (list string))
  : cli (list string * list (string * string)) :=
  match args_e with
  | None => Continue ([], [])
  | Some es => environment_loop es [] []
  end.

Section Portmap.

(** The class [\d] of a [str] pattern: every Unicode decimal digit.
    [digit_at s] is the number of leading bytes of [s] that make up a
    decimal digit at its start, and 0 when [s] does not start with one. *)
Variable digit_at : string -> nat.

(** [\d+], greedy: the decimal digits [s] starts with, and what follows
    them.  A digit takes at least one byte, so [len s] rounds are enough
    fuel for [s]. *)
Fixpoint digits (fuel : nat) (s : string) : string * string :=
  match fuel with
  | O => (EmptyString, s)
  | S fuel' =>
      match digit_at s with
      | O => (EmptyString, s)
      | S _ as n =>
          let (run, rest) := digits fuel' (PyStr.drop n s) in
          (PyStr.take n s ++ run, rest)
      end
  end.

(** [re.match('\d+:\d+$', e)]: whether the pattern matches.  [$] is met
    at the end of [e] and also just before a newline that ends [e].  No
    digit is ":" or a newline, so neither run of digits can be cut short:
    each is the whole run. *)
Definition match_portmap (e : string) : bool :=
  let (local, rest) := digits (len e) e in
  match local, rest with
  | String _ _, String ":" rest' =>
      let (remote, tail) := digits (len rest') rest' in
      match remote, tail with
      | String _ _, EmptyString => true
      | String _ _, String "010" EmptyString => true
      | _, _ => false
      end
  | _, _ => false
  end.

(** The body of [for e in args.p]. *)
Fixpoint portmap_loop (args_p : list string) (l_ports : list string)
         (portmap : list (string * string))
  : cli (list string * list (string * string)) :=
  match args_p with
  | [] => Continue (l_ports, portmap)
  | e :: rest =>
      if negb (match_portmap e) then
        Return1 ["Portmaps need to be passed as number:number pairs";
                 PyStrOps.percent_s "....error in '" e "'"]
      else
        match PyStr.split ":" e with
        | [local; remote] =>
            if existsb (String.eqb local) l_ports then
              Return1 ["Cannot bind a local port twice.";
                       PyStrOps.percent_s "....error in '" e "'"]
            else
              portmap_loop rest (l_ports ++ [local])%list
                           (portmap ++ [(local, remote)])%list
        | _ => Uncaught (ValueError "wrong number of values to unpack")
        end
  end.

Definition portmap_of (args_p : option (list string))
  : cli (list string * list (string * string)) :=
  match args_p with
  | None => Continue ([], [])
  | Some ps => portmap_loop ps [] []
  end.

End Portmap.

(** No decimal digit has ":" among its bytes. *)
Definition colon_free (digit_at : string -> nat) : Prop :=
  forall s, PyStrOps.contains ":" (PyStr.take (digit_at s) s) = false.

(** A [\d] for texts in UTF-8 that knows the ASCII digits and the
    Arabic-Indic ones, U+0660 to U+0669, which UTF-8 writes as the byte
    217 and a byte from 160 to 169. *)
Definition some_digit_at (s : string) : nat :=
  match s with
  | String a rest =>
      if PyStrOps.in_range "0" "9" a then 1
      else if Ascii.eqb a "217" then
        match rest with
        | String b _ => if PyStrOps.in_range "160" "169" b then 2 else 0
        | EmptyString => 0
        end
      else 0
  | EmptyString => 0
  end.

(** The text "٣:٤" in UTF-8: Arabic-Indic three, colon, Arabic-Indic four. *)
Definition arabic_indic_3_4 : string :=
  String "217" (String "163" (String ":" (String "217" (String "164" EmptyString)))).

(** What the loop keeps of an accepted [-p] argument: the text before
    the colon and the text after it, neither empty, neither with a colon
    in it. *)
Definition portmap_entry (e : string) (p : string * string) : Prop :=
  e = fst p ++ ":" ++ snd p
  /\ fst p <> "" /\ PyStrOps.contains ":" (fst p) = false
  /\ snd p <> "" /\ PyStrOps.contains ":" (snd p) = false.

(** The argument an entry of [environment] came from. *)
Definition env_arg (p : string * string) : string := fst p ++ "=" ++ snd p.

(** [mount_points.add(mount)] on a set kept as a list without repeats. *)
Definition set_add (x : string) (s : list string) : list string :=
  if existsb (String.eqb x) s then s else (s ++ [x])%list.

Section Mounts.

(** [os.path.abspath]. *)
Variable abspath : string -> string.

(** The order in which a [for] loop visits a [set] with the given
    elements. *)
Variable iter : list string -> list string.

(** [location.volumes.get(key)], a method of the volume registry. *)
Variable volumes_get : string -> result Volume.t.

(** The body of [for m in args.m]. *)
Fixpoint mount_loop (args_m : list string)
         (volumes : list (Volume.t * string)) (mount_points : list string)
  : cli (list (Volume.t * string) * list string) :=
  match args_m with
  | [] => Continue (volumes, mount_points)
  | m :: rest =>
      if negb (PyStrOps.contains ":" m) then
        Return1 ["Volumes need to be passed as uuid:mountpoint pairs";
                 PyStrOps.percent_s "....error in '" m "'"]
      else
        let find := PyStrOps.rfind ":" m in
        let key := PyStrOps.slice_to m find in
        let mount := PyStrOps.slice_from m (find + 1) in
        match Volume.trees_intersect abspath (iter mount_points) mount with
        | Some (sub, sup) =>
            Return1 ["Error in volumes: " ++ sub ++ " is a subtree of " ++ sup]
        | None =>
            match volumes_get key with
            | Raise e => Uncaught e
            | Ok vol =>
                mount_loop rest (volumes ++ [(vol, mount)])%list
                           (set_add mount mount_points)
            end
        end
  end.

Definition mounts_of (args_m : option (list string))
  : cli (list (Volume.t * string) * list string) :=
  match args_m with
  | None => Continue ([], [])
  | Some ms => mount_loop ms [] []
  end.

End Mounts.

(** What the loop keeps of an accepted [-m] argument: the volume the
    registry gives for the text before the last colon, and the text after
    it as mount point. *)
Definition mount_entry (volumes_get : string -> result Volume.t)
           (m : string) (vm : Volume.t * string) : Prop :=
  exists key,
    m = key ++ ":" ++ snd vm
    /\ PyStrOps.contains ":" (snd vm) = false
    /\ volumes_get key = Ok (fst vm).

(** The list behind an optional repeated argument. *)
Definition given (args : option (list string)) : list string :=
  match args with Some l => l | None => [] end.

(** No two of the paths conflict, once normalised. *)
Definition conflict_free (abspath : string -> string) (paths : list string) : Prop :=
  ForallOrdPairs
    (fun a b => ~ Volume.paths_conflict (abspath a) (abspath b)) paths.

End Tf.


(** ** [tfnz/location.py]: the remaining operations *)

(** The [IndexError] of [xs[0]] on an empty list. *)
Definition IndexError : exn := CollaboratorError "IndexError".

(** [Location.node]: [self.ranked_nodes()[0]], the bias left at its
    default [RankBias.memory]. *)
Definition node (self : Location) : result Node :=
  match ranked_nodes self memory with
  | Ok (n :: _) => Ok n
  | Ok [] => Raise IndexError
  | Raise e => Raise e
  end.

(** What one [requests.get(url)] gives: a response with its status code,
    a [requests.exceptions.ConnectionError], or another exception. *)
Inductive Response :=
| Status (code : Z)
| ConnectionError
| RequestError (e : exn).

(** How the polling loop of [_wait_http_200] ended, and how many times
    it called [requests.get] and [time.sleep]. *)
Record Poll := { poll_result : result unit; requests_made : nat; sleeps_made : nat }.

(** ['%d' % n]. *)
Definition percent_d (n : Z) : string :=
  DecimalString.NilZero.string_of_int (Z.to_int n).

Section WaitHttp200.

(** [str(container.uuid)]. *)
Variable str_of_uuid : string -> string.

(** [socket.gethostbyname]. *)
Variable gethostbyname : string -> result string.

(** [tnl.localport()], a method of [Tunnel]. *)
Variable tunnel_localport : Tunnel -> Z.

(** What the [n]-th [requests.get] of the loop gives, counting from 0. *)
Variable responses : nat -> Response.

(** The [while True] loop; [further] is [attempts_remaining - 1], the
    attempts left after the one about to be made. *)
Fixpoint poll_loop (url : string) (requests sleeps : nat) (further : nat) : Poll :=
  let out_of_attempts :=
    {| poll_result := Raise (ValueError ("Could not connect to: " ++ url));
       requests_made := S requests; sleeps_made := sleeps |} in
  let failed :=
    match further with
    | O => out_of_attempts
    | S further' => poll_loop url (S requests) (S sleeps) further'
    end in
  match responses requests with
  | Status code =>
      if (code =? 200)%Z then
        {| poll_result := Ok tt; requests_made := S requests; sleeps_made := sleeps |}
      else failed
  | ConnectionError => failed
  | RequestError e =>
      {| poll_result := Raise e; requests_made := S requests; sleeps_made := sleeps |}
  end.

Definition attempts_remaining : nat := 60.

Definition poll (url : string) : Poll :=
  poll_loop url 0 0 (attempts_remaining - 1).

(** ['http://%s:%d/%s' % (fqdn, tnl.localport(), path if path is not None else '')]. *)
Definition poll_url (fqdn : string) (tnl : Tunnel) (path : option string) : string :=
  "http://" ++ fqdn ++ ":" ++ percent_d (tunnel_localport tnl) ++ "/"
  ++ match path with Some p => p | None => "" end.

(** [Location._wait_http_200]. *)
Definition _wait_http_200 (E : Env) (container : Container) (dest_port : PyPort)
           (fqdn : string) (path : option string) (localport : PyPort) : M Tunnel :=
  addr <- lift (gethostbyname fqdn) ;;
  if negb (String.eqb addr "127.0.0.1") then
    raise (ValueError ("FQDN '" ++ fqdn ++ "' does not resolve to localhost"))
  else
    call (Logging INFO ("Waiting on http 200: " ++ str_of_uuid (c_uuid container))) ;;;
    tnl <- _tunnel_onto E container dest_port localport None ;;
    let url := poll_url fqdn tnl path in
    match poll_result (poll url) with
    | Ok _ => call (Logging INFO ("Connected onto: " ++ url)) ;;; ret tnl
    | Raise e => raise e
    end.

End WaitHttp200.

(** ** The push handlers that replace and refresh the registries

    [_resource_offer] and [_update_stats] also write the ranking cache
    [last_best_nodes] and the readiness flag of [Waitable]; a [Session]
    is the world with these two. *)

Record Session := {
  world : World;
  last_best_nodes : option (list Node);
  ready : bool
}.

(** A dict comprehension: the items assigned in order. *)
Definition dict_of {V} (items : list (string * V)) : Dict.t V :=
  fold_left (fun d kv => Dict.set (fst kv) (snd kv) d) items [].

Section Offers.

(** The stat blob a location sends for a node. *)
Variable Stats : Type.

(** [str(msg.params['node'])]. *)
Variable str_of_node : string -> string.

(** The constructors and methods of the classes kept elsewhere. *)
Variable WebEndpoint_init : option Connection -> string -> WebEndpoint.
Variable Node_init : option Connection -> string -> Stats -> Node.
Variable Node_update_stats : Node -> Stats -> Node.
Variable TaggedCollection_init : list Volume.t -> TaggedCollection.t.

(** The parameters of a [resource_offer] message. *)
Record ResourceOffer := {
  offer_domains : list string;
  offer_nodes : list (string * Stats);
  offer_volumes : list (string * option string)
}.

(** [Location._resource_offer]. *)
Definition _resource_offer (msg : ResourceOffer) (s : Session) : Session :=
  let self := loc (world s) in
  let endpoints' :=
    dict_of (map (fun dom => (dom, WebEndpoint_init (conn self) dom))
                 (offer_domains msg)) in
  let nodes' :=
    dict_of (map (fun node => (fst node, Node_init (conn self) (fst node) (snd node)))
                 (offer_nodes msg)) in
  let volumes' :=
    TaggedCollection_init
      (map (fun vol => Volume.mk (user_pk self) (fst vol) (snd vol))
           (offer_volumes msg)) in
  {| world := {| loc := set_volumes volumes'
                          (set_nodes nodes' (set_endpoints endpoints' self));
                 trace := trace (world s) |};
     last_best_nodes := last_best_nodes s;
     ready := true |}.

(** [Location._update_stats]; the test [not in self.nodes] and the
    subscript [self.nodes[...]] are the one lookup. *)
Definition _update_stats (node_pk : string) (stats : Stats) (s : Session) : Session :=
  let self := loc (world s) in
  match Dict.get node_pk (nodes self) with
  | None =>
      {| world := record (Logging DEBUG
                            ("Received updated stats from a node we didn't know existed: "
                             ++ str_of_node node_pk)) (world s);
         last_best_nodes := last_best_nodes s;
         ready := ready s |}
  | Some node =>
      {| world := {| loc := set_nodes (Dict.set node_pk (Node_update_stats node stats)
                                                (nodes self)) self;
                     trace := trace (world s) |};
         last_best_nodes := None;
         ready := ready s |}
  end.

End Offers.


(** A teardown in which every call returns. *)
Definition calm : Teardown :=
  {| endpoint_unpublish := fun _ _ => Ok tt;
     tunnel_destroy := fun _ => Ok tt;
     conn_disconnect := Ok tt |}.


(** Collaborators with an [int] that takes no text for a number. *)
Definition picky_env : Env :=
  {| py_int := fun _ => Raise (ValueError "invalid literal for int()");
     new_uuid := fun _ => "t2";
     container_wait_until_ready := fun _ => Ok tt;
     tunnel_connect := fun _ => Ok tt;
     tunnel_from_proxy := fun _ _ => Ok tt;
     tunnel_close_proxy := fun _ _ => Ok tt;
     conn_send_blocking_cmd := fun _ _ => Ok {| msg_uuid := ""; msg_data := "" |} |}.


(** A response after which the polling loop tries again: a status other
    than 200, or a [ConnectionError]. *)
Definition retried (r : Response) : Prop :=
  match r with
  | Status code => code <> 200%Z
  | ConnectionError => True
  | RequestError _ => False
  end.

(** Answers for the polling loop: refused connections until the one
    numbered [n], which is a 200. *)
Definition up_after (n : nat) (k : nat) : Response :=
  if (k <? n)%nat then ConnectionError else Status 200.


(** The items assigned in order to a dict that is already there. *)
Definition fold_set {V} (items : list (string * V)) (d : Dict.t V) : Dict.t V :=
  fold_left (fun d kv => Dict.set (fst kv) (snd kv) d) items d.

(** A dict of endpoints whose values are made from their keys by [g]. *)
Definition keyed (g : string -> WebEndpoint) (d : Dict.t WebEndpoint) : Prop :=
  Forall (fun kv => snd kv = g (fst kv)) d.

(** The endpoint [g] makes for the first of the domains [ks] that [fqdn]
    ends with. *)
Definition first_match (g : string -> WebEndpoint) (fqdn : string)
           (ks : list string) : result WebEndpoint :=
  match find (fun k => PyStr.endswith fqdn k) ks with
  | Some k => Ok (g k)
  | None => Raise (ValueError ("There is no endpoint capable of serving: " ++ fqdn))
  end.


(** * Properties *)

(** ** Strings *)

Module PyStrFacts.
Import PyStr.

Lemma take_0 s : take 0 s = "".
Proof. destruct s; reflexivity. Qed.

Lemma take_S n a s : take (S n) (String a s) = String a (take n s).
Proof. reflexivity. Qed.

Lemma len_app a b : len (a ++ b) = (len a + len b)%nat.
Proof. unfold len. induction a; simpl; congruence. Qed.

Lemma take_app a t : take (len a) (a ++ t) = a.
Proof.
  induction a as [|c a IH]; simpl.
  - apply take_0.
  - unfold take in *. simpl. now rewrite IH.
Qed.

Lemma take_drop n s : take n s ++ drop n s = s.
Proof.
  revert s; induction n as [|n IH]; intros s.
  - rewrite take_0. reflexivity.
  - destruct s as [|c s]; [reflexivity|].
    rewrite take_S. simpl. now rewrite IH.
Qed.

(** The slice comparison [b[:len(a)] == a] decides the prefix relation. *)
Lemma take_eq_prefix a b : take (len a) b = a <-> is_prefix a b.
Proof.
  split.
  - intros H. exists (drop (len a) b).
    rewrite <- H at 1. symmetry. apply take_drop.
  - intros [t ->]. apply take_app.
Qed.

Lemma prefix_len a b : is_prefix a b -> (len a <= len b)%nat.
Proof. intros [t ->]. rewrite len_app. lia. Qed.

Lemma prefix_refl a : is_prefix a a.
Proof. exists "". induction a; simpl; congruence. Qed.

Lemma app_empty_r a : a ++ "" = a.
Proof. induction a; simpl; congruence. Qed.

Lemma prefix_same_len a b : is_prefix a b -> len a = len b -> a = b.
Proof.
  intros [t ->] H. rewrite len_app in H.
  destruct t; [now rewrite app_empty_r|]. unfold len in H. simpl in H. lia.
Qed.

Lemma drop_app h a : drop (len h) (h ++ a) = a.
Proof. induction h; simpl; auto. Qed.

(** [endswith] decides the suffix relation. *)
Lemma endswith_suffix s suf : endswith s suf = true <-> is_suffix suf s.
Proof.
  unfold endswith. rewrite andb_true_iff, Nat.leb_le, String.eqb_eq. split.
  - intros [Hl H]. exists (take (len s - len suf) s).
    rewrite <- H at 2. symmetry. apply take_drop.
  - intros [h ->]. rewrite len_app. split; [lia|].
    replace (len h + len suf - len suf)%nat with (len h) by lia.
    apply drop_app.
Qed.

Lemma endswith_not_suffix s suf : endswith s suf = false <-> ~ is_suffix suf s.
Proof.
  rewrite <- endswith_suffix. destruct (endswith s suf); intuition congruence.
Qed.

End PyStrFacts.

(** ** The mount conflict check *)

Module VolumeFacts.
Import PyStr PyStrFacts Volume.

Section Loop.
Variable abspath : string -> string.

(** What one round of the loop tests. *)
Lemma shorter_branch p c :
  (len c <? len p)%nat = true ->
  (String.eqb (take (len c) p) c = true <-> paths_conflict p c).
Proof.
  intros Hlt. apply Nat.ltb_lt in Hlt.
  rewrite String.eqb_eq, take_eq_prefix. unfold paths_conflict. split.
  - auto.
  - intros [H|[H| ->]]; auto.
    + apply prefix_len in H. lia.
    + lia.
Qed.

Lemma longer_branch p c :
  (len c <? len p)%nat = false ->
  (String.eqb (take (len p) c) p = true <-> paths_conflict p c).
Proof.
  intros Hge. apply Nat.ltb_ge in Hge.
  rewrite String.eqb_eq, take_eq_prefix. unfold paths_conflict. split.
  - auto.
  - intros [H|[H| ->]]; auto.
    + pose proof (prefix_len _ _ H) as Hl.
      assert (c = p) as -> by (apply prefix_same_len; [assumption|lia]).
      apply prefix_refl.
    + apply prefix_refl.
Qed.

Lemma loop_none p current :
  trees_intersect_loop abspath p current = None <->
  (forall cur, In cur current -> ~ paths_conflict p (abspath cur)).
Proof.
  induction current as [|cur rest IH]; simpl.
  - split; [intros _ cur []|reflexivity].
  - destruct (len (abspath cur) <? len p)%nat eqn:Hlen.
    + pose proof (shorter_branch p (abspath cur) Hlen) as Hb.
      destruct (String.eqb (take (len (abspath cur)) p) (abspath cur)).
      * split; [discriminate|]. intros H. exfalso.
        apply (H cur); [now left|]. now apply Hb.
      * rewrite IH. split.
        -- intros H x [<-|Hx]; [|now apply H].
           intros Hc. apply Hb in Hc. discriminate.
        -- intros H x Hx. apply H. now right.
    + pose proof (longer_branch p (abspath cur) Hlen) as Hb.
      destruct (String.eqb (take (len p) (abspath cur)) p).
      * split; [discriminate|]. intros H. exfalso.
        apply (H cur); [now left|]. now apply Hb.
      * rewrite IH. split.
        -- intros H x [<-|Hx]; [|now apply H].
           intros Hc. apply Hb in Hc. discriminate.
        -- intros H x Hx. apply H. now right.
Qed.

Lemma loop_some p current sub sup :
  trees_intersect_loop abspath p current = Some (sub, sup) ->
  exists cur, In cur current /\ is_prefix sup sub /\
    ((sub, sup) = (p, abspath cur) \/ (sub, sup) = (abspath cur, p)).
Proof.
  induction current as [|cur rest IH]; simpl; [discriminate|].
  destruct (len (abspath cur) <? len p)%nat.
  - destruct (String.eqb (take (len (abspath cur)) p) (abspath cur)) eqn:He.
    + intros [= <- <-]. exists cur. split; [now left|]. split; [|now left].
      apply take_eq_prefix. now apply String.eqb_eq.
    + intros H. destruct (IH H) as (x & Hx & R). exists x. split; [now right|exact R].
  - destruct (String.eqb (take (len p) (abspath cur)) p) eqn:He.
    + intros [= <- <-]. exists cur. split; [now left|]. split; [|now right].
      apply take_eq_prefix. now apply String.eqb_eq.
    + intros H. destruct (IH H) as (x & Hx & R). exists x. split; [now right|exact R].
Qed.

Lemma loop_conflict_iff p current :
  (exists pair, trees_intersect_loop abspath p current = Some pair) <->
  (exists cur, In cur current /\ paths_conflict p (abspath cur)).
Proof.
  split.
  - intros [[sub sup] H]. destruct (loop_some _ _ _ _ H) as (cur & Hin & Hp & Hs).
    exists cur. split; [assumption|]. unfold paths_conflict.
    destruct Hs as [[= -> ->]|[= -> ->]]; auto.
  - intros (cur & Hin & Hc).
    destruct (trees_intersect_loop abspath p current) as [pr|] eqn:H.
    + now exists pr.
    + exfalso. rewrite loop_none in H. exact (H cur Hin Hc).
Qed.

End Loop.

End VolumeFacts.

(** C1. [Volume.trees_intersect] returns a pair exactly when some claimed
    path, after normalisation, has the normalised proposed path as a
    prefix, is a prefix of it, or equals it; the pair returned is made of
    the normalised proposed path and one claimed normalised path, the
    longer one first.  On the four calls of the specification:
    no conflict for the empty set and "/a/b"; the pair ("/a/b/c", "/a/b")
    for {"/a/b"} with "/a/b/c" and for {"/a/b/c"} with "/a/b"; no conflict
    for {"/x"} with "/y". *)
Theorem trees_intersect_conflict_iff :
  forall (abspath : string -> string) (current : list string) (proposed : string),
    ((exists pair, Volume.trees_intersect abspath current proposed = Some pair) <->
     (exists cur, In cur current /\
        Volume.paths_conflict (abspath proposed) (abspath cur)))
    /\ (forall sub sup,
          Volume.trees_intersect abspath current proposed = Some (sub, sup) ->
          exists cur, In cur current /\ PyStr.is_prefix sup sub /\
            ((sub, sup) = (abspath proposed, abspath cur) \/
             (sub, sup) = (abspath cur, abspath proposed)))
    /\ (forall cwd,
          Volume.trees_intersect (PosixPath.abspath cwd) [] "/a/b" = None
          /\ Volume.trees_intersect (PosixPath.abspath cwd) ["/a/b"] "/a/b/c"
             = Some ("/a/b/c", "/a/b")
          /\ Volume.trees_intersect (PosixPath.abspath cwd) ["/a/b/c"] "/a/b"
             = Some ("/a/b/c", "/a/b")
          /\ Volume.trees_intersect (PosixPath.abspath cwd) ["/x"] "/y" = None).
Proof.
  intros abspath current proposed. unfold Volume.trees_intersect.
  split; [apply VolumeFacts.loop_conflict_iff|].
  split; [intros sub sup; apply VolumeFacts.loop_some|].
  intros cwd. repeat split; reflexivity.
Qed.

(** C10. The check compares the normalised strings character by
    character and asks for no "/" at the end of the shorter one: whenever
    a claimed path and the proposed path normalise to different strings
    one of which is a prefix of the other, a conflict is reported, the
    longer string first.  So claimed "/a/b" and proposed "/a/bc" conflict,
    though neither directory contains the other. *)
Theorem trees_intersect_ignores_boundary :
  forall (abspath : string -> string) (cur proposed : string),
    abspath cur <> abspath proposed ->
    (PyStr.is_prefix (abspath cur) (abspath proposed) ->
     Volume.trees_intersect abspath [cur] proposed
     = Some (abspath proposed, abspath cur))
    /\ (PyStr.is_prefix (abspath proposed) (abspath cur) ->
        Volume.trees_intersect abspath [cur] proposed
        = Some (abspath cur, abspath proposed))
    /\ (forall current, In cur current ->
        PyStr.is_prefix (abspath cur) (abspath proposed)
        \/ PyStr.is_prefix (abspath proposed) (abspath cur) ->
        exists pair, Volume.trees_intersect abspath current proposed = Some pair)
    /\ (forall cwd,
          Volume.trees_intersect (PosixPath.abspath cwd) ["/a/b"] "/a/bc"
          = Some ("/a/bc", "/a/b")
          /\ ~ Volume.dir_contains "/a/b" "/a/bc"
          /\ ~ Volume.dir_contains "/a/bc" "/a/b").
Proof.
  intros abspath cur proposed Hne. unfold Volume.trees_intersect.
  split; [|split; [|split]].
  - intros Hp. simpl.
    assert (Hlen : (len (abspath cur) <? len (abspath proposed))%nat = true).
    { apply Nat.ltb_lt. pose proof (PyStrFacts.prefix_len _ _ Hp) as Hl.
      destruct (Nat.eq_dec (len (abspath cur)) (len (abspath proposed))) as [e|]; [|lia].
      exfalso. apply Hne. now apply PyStrFacts.prefix_same_len. }
    rewrite Hlen.
    apply PyStrFacts.take_eq_prefix in Hp. rewrite Hp, String.eqb_refl. reflexivity.
  - intros Hp. simpl.
    assert (Hlen : (len (abspath cur) <? len (abspath proposed))%nat = false).
    { apply Nat.ltb_ge. now apply PyStrFacts.prefix_len. }
    rewrite Hlen.
    apply PyStrFacts.take_eq_prefix in Hp. rewrite Hp, String.eqb_refl. reflexivity.
  - intros current Hin Hp. apply VolumeFacts.loop_conflict_iff.
    exists cur. split; [assumption|]. unfold Volume.paths_conflict. tauto.
  - intros cwd. split; [reflexivity|].
    split; intros [rest H]; simpl in H; inversion H.
Qed.

Lemma trees_intersect_ignores_boundary_witness :
  PosixPath.abspath "/" "/a/b" <> PosixPath.abspath "/" "/a/bc"
  /\ PyStr.is_prefix (PosixPath.abspath "/" "/a/b") (PosixPath.abspath "/" "/a/bc")
  /\ Volume.trees_intersect (PosixPath.abspath "/") ["/a/b"] "/a/bc"
     = Some (PosixPath.abspath "/" "/a/bc", PosixPath.abspath "/" "/a/b").
Proof.
  assert (Hne : PosixPath.abspath "/" "/a/b" <> PosixPath.abspath "/" "/a/bc")
    by (vm_compute; discriminate).
  assert (Hp : PyStr.is_prefix (PosixPath.abspath "/" "/a/b")
                               (PosixPath.abspath "/" "/a/bc"))
    by (exists "c"; reflexivity).
  split; [exact Hne|]. split; [exact Hp|].
  exact (proj1 (trees_intersect_ignores_boundary
                  (PosixPath.abspath "/") "/a/b" "/a/bc" Hne) Hp).
Defined.

(** ** Ranking *)

Section SortedFacts.
Context {A : Type} (key : A -> Z).

Lemma insert_reverse_perm x l : Permutation (x :: l) (insert_reverse key x l).
Proof.
  induction l as [|y l IH]; simpl; [reflexivity|].
  destruct (key y <=? key x)%Z; [reflexivity|].
  rewrite perm_swap. now constructor.
Qed.

Lemma sorted_reverse_perm l : Permutation l (sorted_reverse key l).
Proof.
  induction l as [|x l IH]; simpl; [constructor|].
  rewrite <- insert_reverse_perm. now constructor.
Qed.

Lemma insert_reverse_Forall (P : A -> Prop) x l :
  P x -> Forall P l -> Forall P (insert_reverse key x l).
Proof.
  intros Hx Hl. induction Hl as [|y l Hy Hl IH]; simpl.
  - now repeat constructor.
  - destruct (key y <=? key x)%Z; repeat constructor; assumption.
Qed.

Lemma insert_reverse_descending x l :
  descending key l -> descending key (insert_reverse key x l).
Proof.
  unfold descending. intros Hs.
  induction Hs as [|y l Hs IH Hy]; simpl.
  - repeat constructor.
  - destruct (key y <=? key x)%Z eqn:Hc.
    + apply Z.leb_le in Hc. constructor; [now constructor|].
      constructor; [assumption|].
      eapply Forall_impl; [|exact Hy]. simpl. intros b Hb. lia.
    + apply Z.leb_gt in Hc. constructor; [assumption|].
      apply insert_reverse_Forall; [lia|assumption].
Qed.

Lemma sorted_reverse_descending l : descending key (sorted_reverse key l).
Proof.
  induction l as [|x l IH]; simpl.
  - constructor.
  - now apply insert_reverse_descending.
Qed.

(** Inserting keeps the new element in front of the ones with its key. *)
Lemma insert_reverse_with_key k x l :
  with_key key k (insert_reverse key x l) = with_key key k (x :: l).
Proof.
  unfold with_key. induction l as [|y l IH]; [reflexivity|].
  simpl insert_reverse. destruct (key y <=? key x)%Z eqn:Hc; [reflexivity|].
  apply Z.leb_gt in Hc. simpl in *. rewrite IH.
  destruct (key x =? k)%Z eqn:Hx; [|reflexivity].
  apply Z.eqb_eq in Hx.
  assert (Hy : (key y =? k)%Z = false) by (apply Z.eqb_neq; lia).
  now rewrite Hy.
Qed.

Lemma sorted_reverse_stable k l :
  with_key key k (sorted_reverse key l) = with_key key k l.
Proof.
  induction l as [|x l IH]; [reflexivity|].
  simpl sorted_reverse. rewrite insert_reverse_with_key.
  unfold with_key in *. simpl. now rewrite IH.
Qed.

End SortedFacts.

(** C2. With an empty node set [ranked_nodes] raises the [ValueError]
    "The location has no nodes", the error this class raises for what
    cannot be found.  Otherwise it returns the nodes of the location,
    each once, in descending order of the stat the bias names, and the
    nodes that share a stat value stay in the order the node set holds
    them. *)
Theorem ranked_nodes_sorted_stable :
  forall (self : Location) (bias : RankBias),
    match Dict.values (nodes self) with
    | [] => ranked_nodes self bias = Raise (ValueError "The location has no nodes")
    | _ :: _ =>
        exists ranked,
          ranked_nodes self bias = Ok ranked
          /\ Permutation (Dict.values (nodes self)) ranked
          /\ descending (stat_of bias) ranked
          /\ forall k, with_key (stat_of bias) k ranked
                       = with_key (stat_of bias) k (Dict.values (nodes self))
    end.
Proof.
  intros self bias. unfold ranked_nodes.
  destruct (Dict.values (nodes self)) as [|n ns] eqn:Hv; [reflexivity|].
  cbn [List.length Nat.eqb].
  exists (sorted_reverse (stat_of bias) (n :: ns)).
  split; [destruct bias; reflexivity|].
  split; [apply sorted_reverse_perm|].
  split; [apply sorted_reverse_descending|].
  intros k. apply sorted_reverse_stable.
Qed.

(** ** Endpoint lookup *)

Lemma endpoint_for_loop_ok items fqdn ep :
  endpoint_for_loop items fqdn = Ok ep ->
  exists before domain after,
    items = (before ++ (domain, ep) :: after)%list
    /\ PyStr.is_suffix domain fqdn
    /\ Forall (fun item => ~ PyStr.is_suffix (fst item) fqdn) before.
Proof.
  induction items as [|[d e] rest IH]; simpl; [discriminate|].
  destruct (PyStr.endswith fqdn d) eqn:Hd.
  - intros [= ->]. exists [], d, rest. repeat split.
    + now apply PyStrFacts.endswith_suffix.
    + constructor.
  - intros H. destruct (IH H) as (b & dom & a & -> & Hs & Hb).
    exists ((d, e) :: b), dom, a. repeat split; [assumption|].
    constructor; [|assumption]. now apply PyStrFacts.endswith_not_suffix.
Qed.

Lemma endpoint_for_loop_raise items fqdn e :
  endpoint_for_loop items fqdn = Raise e ->
  e = ValueError ("There is no endpoint capable of serving: " ++ fqdn)
  /\ Forall (fun item => ~ PyStr.is_suffix (fst item) fqdn) items.
Proof.
  induction items as [|[d ep] rest IH]; simpl.
  - intros [= <-]. split; [reflexivity|constructor].
  - destruct (PyStr.endswith fqdn d) eqn:Hd; [discriminate|].
    intros H. destruct (IH H) as [-> Hr]. split; [reflexivity|].
    constructor; [|assumption]. now apply PyStrFacts.endswith_not_suffix.
Qed.

(** C9. [endpoint_for] returns the endpoint of the first domain, in the
    order the endpoints were registered, that is a suffix of the fqdn:
    no domain registered before it is a suffix, whatever the lengths.  It
    raises the [ValueError] "There is no endpoint capable of serving: ..."
    exactly when no registered domain is a suffix.  With only "my.com"
    registered, "a.b.my.com" gets its endpoint; with "my.com" and
    "b.my.com" both registered, the one registered first is returned. *)
Theorem endpoint_for_first_registered :
  forall (self : Location) (fqdn : string),
    match endpoint_for self fqdn with
    | Ok ep =>
        exists before domain after,
          endpoints self = (before ++ (domain, ep) :: after)%list
          /\ PyStr.is_suffix domain fqdn
          /\ Forall (fun item => ~ PyStr.is_suffix (fst item) fqdn) before
    | Raise e =>
        e = ValueError ("There is no endpoint capable of serving: " ++ fqdn)
        /\ Forall (fun item => ~ PyStr.is_suffix (fst item) fqdn) (endpoints self)
    end
    /\ (forall e1 e2,
          endpoint_for (set_endpoints [("my.com", e1)] self) "a.b.my.com" = Ok e1
          /\ endpoint_for (set_endpoints [("my.com", e1); ("b.my.com", e2)] self)
                          "a.b.my.com" = Ok e1
          /\ endpoint_for (set_endpoints [("b.my.com", e2); ("my.com", e1)] self)
                          "a.b.my.com" = Ok e2).
Proof.
  intros self fqdn. split.
  - unfold endpoint_for, Dict.items.
    destruct (endpoint_for_loop (endpoints self) fqdn) as [ep|e] eqn:H.
    + now apply endpoint_for_loop_ok.
    + now apply endpoint_for_loop_raise.
  - intros e1 e2. repeat split; reflexivity.
Qed.

(** ** Running the operations *)

Lemma world_eta w : {| loc := loc w; trace := trace w |} = w.
Proof. now destruct w. Qed.

(** A loop whose body only records calls records them all and returns. *)
Lemma for_each_records {A} (body : A -> M unit) (calls : A -> list Call) xs :
  (forall x w, body x w
     = (Ok tt, {| loc := loc w;
                  trace := (trace w ++ map (fun c => {| ev_call := c; ev_state := loc w |})
                                           (calls x))%list |})) ->
  forall w, for_each xs body w
    = (Ok tt, {| loc := loc w;
                 trace := (trace w ++ map (fun c => {| ev_call := c; ev_state := loc w |})
                                          (flat_map calls xs))%list |}).
Proof.
  intros Hbody. induction xs as [|x xs IH]; intros w; simpl.
  - unfold ret. now rewrite app_nil_r, world_eta.
  - unfold bind. rewrite Hbody, IH. simpl.
    now rewrite map_app, app_assoc.
Qed.

Lemma flat_map_singleton {A B} (f : A -> B) xs :
  flat_map (fun x => [f x]) xs = map f xs.
Proof. induction xs; simpl; congruence. Qed.

Lemma for_each_call {A} (f : A -> Call) xs w :
  for_each xs (fun x => call (f x)) w
  = (Ok tt, {| loc := loc w;
               trace := (trace w ++ map (fun c => {| ev_call := c; ev_state := loc w |})
                                        (map f xs))%list |}).
Proof.
  rewrite (for_each_records _ (fun x => [f x])).
  - now rewrite flat_map_singleton.
  - intros x w'. reflexivity.
Qed.

(** ** Teardown *)

(** A loop whose body records calls and may raise: it never changes the
    location, and when it returns it has recorded all its calls. *)
Lemma for_each_sound {A} (body : A -> M unit) (calls : A -> list Call) xs :
  (forall x w,
     loc (snd (body x w)) = loc w
     /\ (fst (body x w) = Ok tt ->
         trace (snd (body x w))
         = (trace w ++ map (fun c => {| ev_call := c; ev_state := loc w |})
                           (calls x))%list)) ->
  forall w,
    loc (snd (for_each xs body w)) = loc w
    /\ (fst (for_each xs body w) = Ok tt ->
        trace (snd (for_each xs body w))
        = (trace w ++ map (fun c => {| ev_call := c; ev_state := loc w |})
                          (flat_map calls xs))%list).
Proof.
  intros Hbody. induction xs as [|x xs IH]; intros w; simpl.
  - split; [reflexivity|]. intros _. now rewrite app_nil_r.
  - unfold bind. destruct (Hbody x w) as [Hl Ht].
    destruct (body x w) as [[[]|e] w1]; simpl in *.
    + destruct (IH w1) as [Hl' Ht']. split; [congruence|].
      intros Hok. rewrite (Ht' Hok), (Ht eq_refl), Hl, map_app, app_assoc.
      reflexivity.
    + split; [assumption|discriminate].
Qed.

Lemma call_env_sound (c : Call) (outcome : result unit) w :
  loc (snd (call_env c outcome w)) = loc w
  /\ (fst (call_env c outcome w) = Ok tt ->
      trace (snd (call_env c outcome w))
      = (trace w ++ map (fun c => {| ev_call := c; ev_state := loc w |}) [c])%list).
Proof. split; reflexivity. Qed.

Lemma for_each_call_env_sound {A} (f : A -> Call) (out : A -> result unit) xs w :
  loc (snd (for_each xs (fun x => call_env (f x) (out x)) w)) = loc w
  /\ (fst (for_each xs (fun x => call_env (f x) (out x)) w) = Ok tt ->
      trace (snd (for_each xs (fun x => call_env (f x) (out x)) w))
      = (trace w ++ map (fun c => {| ev_call := c; ev_state := loc w |})
                        (map f xs))%list).
Proof.
  rewrite <- (flat_map_singleton f xs).
  apply (for_each_sound _ (fun x => [f x])).
  intros x w'. apply call_env_sound.
Qed.


(** What a teardown does on a connected location: it completes, or it
    is cut short by the call that raises. *)
Lemma disconnect_run T w c :
  conn (loc w) = Some c ->
  exists r w',
    disconnect T w = (r, w')
    /\ ((r = Ok tt
         /\ loc w' = torn_down (loc w)
         /\ exists events,
              trace w' = (trace w ++ events)%list
              /\ map ev_call events = teardown_calls (loc w))
        \/ (exists e, r = Raise e
                      /\ conn (loc w') = conn (loc w)
                      /\ nodes (loc w') = nodes (loc w)
                      /\ volumes (loc w') = volumes (loc w))).
Proof.
  intros Hc. unfold disconnect.
  unfold bind at 1. unfold get_self at 1. rewrite Hc.
  unfold bind at 1. unfold call at 1.
  unfold bind at 1. unfold get_self at 1.
  unfold bind at 1.
  set (w0 := record (Logging INFO "Disconnecting") w).
  set (body1 := fun endpoint : WebEndpoint =>
         for_each (Dict.values (ep_clusters endpoint)) (fun cluster =>
           call_env (EndpointUnpublish endpoint cluster)
                    (endpoint_unpublish T endpoint cluster))).
  assert (H1 := for_each_sound body1
                  (fun ep => map (EndpointUnpublish ep) (Dict.values (ep_clusters ep)))
                  (Dict.values (endpoints (loc w0)))
                  (fun ep w' => for_each_call_env_sound _ _ _ w') w0).
  destruct (for_each (Dict.values (endpoints (loc w0))) body1 w0) as [[[]|e1] w1];
    simpl in H1; destruct H1 as [Hl1 Ht1].
  2:{ exists (Raise e1), w1. split; [reflexivity|]. right. exists e1.
      rewrite Hl1. repeat split; assumption. }
  unfold bind at 1. unfold modify at 1.
  unfold bind at 1. unfold get_self at 1.
  unfold bind at 1.
  set (w1' := {| loc := set_endpoints [] (loc w1); trace := trace w1 |}).
  assert (H2 := for_each_call_env_sound TunnelDestroy (tunnel_destroy T)
                  (Dict.values (tunnels (loc w1'))) w1').
  destruct (for_each (Dict.values (tunnels (loc w1'))) _ w1') as [[[]|e2] w2];
    simpl in H2; destruct H2 as [Hl2 Ht2].
  2:{ exists (Raise e2), w2. split; [reflexivity|]. right. exists e2.
      rewrite Hl2, Hl1. repeat split; assumption. }
  unfold bind, modify, call_env, record.
  destruct (conn_disconnect T) as [[]|e3]; simpl.
  2:{ eexists _, _. split; [reflexivity|]. right. exists e3. simpl.
      rewrite Hl2, Hl1. repeat split; assumption. }
  eexists _, _. split; [reflexivity|]. left. split; [reflexivity|]. simpl. split.
  - rewrite Hl2, Hl1. reflexivity.
  - eexists. split.
    + rewrite (Ht2 eq_refl), (Ht1 eq_refl). unfold w0, record. simpl.
      rewrite <- !app_assoc. reflexivity.
    + unfold teardown_calls. rewrite Hl1. simpl.
      rewrite !map_app, !map_map. simpl. rewrite !map_id. reflexivity.
Qed.

Lemma disconnect_connected T w c :
  conn (loc w) = Some c ->
  (fst (disconnect T w) = Ok tt ->
   loc (snd (disconnect T w)) = torn_down (loc w)
   /\ exists events,
        trace (snd (disconnect T w)) = (trace w ++ events)%list
        /\ map ev_call events = teardown_calls (loc w))
  /\ (forall e, fst (disconnect T w) = Raise e ->
        conn (loc (snd (disconnect T w))) = conn (loc w)
        /\ nodes (loc (snd (disconnect T w))) = nodes (loc w)
        /\ volumes (loc (snd (disconnect T w))) = volumes (loc w)).
Proof.
  intros Hc. destruct (disconnect_run T w c Hc) as (r & w' & -> & H). simpl.
  destruct H as [(-> & Hl & Hev)|(e' & -> & H)].
  - split; [auto|discriminate].
  - split; [discriminate|]. intros e _. exact H.
Qed.




(** ** The dict *)

Module DictFacts.
Import Dict.

Section WithV.
Context {V : Type}.
Implicit Types (d : Dict.t V) (k : string) (v : V).

Lemma get_set_same k v d : get k (set k v d) = Some v.
Proof.
  induction d as [|[k' v'] d IH]; simpl.
  - now rewrite String.eqb_refl.
  - destruct (String.eqb k k') eqn:E; simpl; rewrite ?E, ?String.eqb_refl; auto.
Qed.

Lemma get_set_other k k' v d : k' <> k -> get k' (set k v d) = get k' d.
Proof.
  intros Hne. induction d as [|[k2 v2] d IH]; simpl.
  - apply String.eqb_neq in Hne. now rewrite Hne.
  - destruct (String.eqb k k2) eqn:E; simpl.
    + apply String.eqb_eq in E. subst k2.
      apply String.eqb_neq in Hne. now rewrite Hne.
    + now rewrite IH.
Qed.

Lemma keys_set k v d :
  keys (set k v d) = if existsb (String.eqb k) (keys d) then keys d
                     else (keys d ++ [k])%list.
Proof.
  induction d as [|[k' v'] d IH]; simpl; [reflexivity|].
  destruct (String.eqb k k') eqn:E; simpl.
  - apply String.eqb_eq in E. now subst.
  - rewrite IH. now destruct (existsb (String.eqb k) (keys d)).
Qed.

(** Assignment keeps the keys distinct. *)
Lemma set_wf k v d : wf d -> wf (set k v d).
Proof.
  unfold wf. rewrite keys_set. intros H.
  destruct (existsb (String.eqb k) (keys d)) eqn:E; [assumption|].
  apply NoDup_app; [assumption|repeat constructor; intros []|].
  intros x Hx [Hk|[]]. subst x.
  assert (existsb (String.eqb k) (keys d) = true) as E'
      by (apply existsb_exists; exists k; split; [assumption|apply String.eqb_refl]).
  congruence.
Qed.

Lemma get_none_keys k d : get k d = None <-> ~ In k (keys d).
Proof.
  induction d as [|[k' v'] d IH]; simpl.
  - tauto.
  - destruct (String.eqb k k') eqn:E.
    + apply String.eqb_eq in E. subst. split; [discriminate|]. tauto.
    + apply String.eqb_neq in E. rewrite IH. split.
      * intros H [H1|H1]; [congruence|tauto].
      * tauto.
Qed.




End WithV.

End DictFacts.

(** ** Tunnels *)

(** C4, as the code has it.  Whatever an invocation of [_tunnel_onto]
    does, a [tunnel.connect()] it makes is made in a state whose registry
    already holds the tunnel under its uuid.  When the port conversions
    and the wait for the container succeed, the tunnel is built, entered
    in the registry and only then connected; a failure of the connection
    is raised to the caller as it is, and the registry still holds the
    tunnel afterwards: it is not taken out again. *)
Theorem tunnel_registered_before_connect :
  forall (E : Env) (container : Container) (port localport : PyPort)
         (addr : option string) (w : World),
    (exists events,
        trace (snd (_tunnel_onto E container port localport addr w))
        = (trace w ++ events)%list
        /\ Forall connect_sees_registered events)
    /\ (forall p lp,
          int_if_str E port = Ok p ->
          int_if_str E localport = Ok lp ->
          container_wait_until_ready E container = Ok tt ->
          let tunnel := Tunnel_init E (loc w) container p lp addr in
          let registered :=
            set_tunnels (Dict.set (t_uuid tunnel) tunnel (tunnels (loc w))) (loc w) in
          Dict.get (t_uuid tunnel) (tunnels registered) = Some tunnel
          /\ snd (_tunnel_onto E container port localport addr w)
             = {| loc := registered;
                  trace := (trace w
                            ++ [ {| ev_call := ContainerWaitUntilReady container;
                                    ev_state := loc w |};
                                 {| ev_call := TunnelConnect tunnel;
                                    ev_state := registered |} ])%list |}
          /\ fst (_tunnel_onto E container port localport addr w)
             = match tunnel_connect E tunnel with
               | Ok _ => Ok tunnel
               | Raise e => Raise e
               end).
Proof.
  intros E container port localport addr w. split.
  - unfold _tunnel_onto, bind, lift, call_env, get_self, modify, ret, record.
    destruct (int_if_str E port) as [p|e]; simpl.
    2:{ exists []. rewrite app_nil_r. split; [reflexivity|constructor]. }
    destruct (int_if_str E localport) as [lp|e]; simpl.
    2:{ exists []. rewrite app_nil_r. split; [reflexivity|constructor]. }
    destruct (container_wait_until_ready E container) as [[]|e]; simpl.
    2:{ eexists. split; [reflexivity|]. repeat constructor. }
    destruct (tunnel_connect E _) as [[]|e]; simpl.
    + eexists. rewrite <- app_assoc. split; [reflexivity|].
      repeat constructor. unfold connect_sees_registered. simpl.
      apply DictFacts.get_set_same.
    + eexists. rewrite <- app_assoc. split; [reflexivity|].
      repeat constructor. unfold connect_sees_registered. simpl.
      apply DictFacts.get_set_same.
  - intros p lp Hp Hlp Hready tunnel registered.
    split; [apply DictFacts.get_set_same|].
    unfold _tunnel_onto, bind, lift, call_env, get_self, modify, ret, record.
    rewrite Hp, Hlp, Hready. simpl. fold tunnel. fold registered.
    rewrite <- app_assoc. simpl.
    destruct (tunnel_connect E tunnel) as [[]|e]; simpl; split; reflexivity.
Qed.

Lemma tunnel_registered_before_connect_witness :
  fst (_tunnel_onto refusing_env example_container (PortStr "80") PortNone None
                    example_world)
  = Raise (CollaboratorError "cannot connect")
  /\ Dict.get "t2" (tunnels (loc (snd (_tunnel_onto refusing_env example_container
                                         (PortStr "80") PortNone None example_world))))
     <> None.
Proof.
  destruct (tunnel_registered_before_connect refusing_env example_container
              (PortStr "80") PortNone None example_world) as [_ H].
  destruct (H (PortInt 80) PortNone eq_refl eq_refl eq_refl) as (Hg & Hs & Hf).
  split.
  - rewrite Hf. reflexivity.
  - rewrite Hs. simpl. discriminate.
Defined.

(** The claim of C4 on a tunnel whose connection fails: the error is
    raised, and the tunnel is still in the registry. *)
Lemma tunnel_stays_registered_on_failure :
  let run := _tunnel_onto refusing_env example_container (PortInt 80) PortNone None
                          example_world in
  fst run = Raise (CollaboratorError "cannot connect")
  /\ Dict.get "t2" (tunnels (loc example_world)) = None
  /\ exists tunnel, Dict.get "t2" (tunnels (loc (snd run))) = Some tunnel
                    /\ t_uuid tunnel = "t2".
Proof.
  split; [reflexivity|]. split; [reflexivity|].
  eexists. split; reflexivity.
Qed.

(** The registry keeps its keys distinct when a tunnel is entered. *)
Lemma tunnel_onto_keeps_wf E container port localport addr w :
  Dict.wf (tunnels (loc w)) ->
  Dict.wf (tunnels (loc (snd (_tunnel_onto E container port localport addr w)))).
Proof.
  intros Hwf.
  unfold _tunnel_onto, bind, lift, call_env, get_self, modify, ret, record.
  destruct (int_if_str E port); simpl; [|assumption].
  destruct (int_if_str E localport); simpl; [|assumption].
  destruct (container_wait_until_ready E container); simpl; [|assumption].
  destruct (tunnel_connect E _); simpl; now apply DictFacts.set_wf.
Qed.





(** C7. A [from_proxy] or [close_proxy] event whose uuid the registry
    does not hold is swallowed: the handler writes its debug line and
    returns.  For a uuid the registry holds, the handler calls the tunnel
    with the message; a [KeyError] coming out of the tunnel is swallowed
    the same way, anything else the tunnel answers is the handler's
    answer.  Neither handler changes the location, so the registry is
    what it was. *)
Theorem proxy_event_swallowed :
  forall (E : Env) (msg : Msg) (w : World),
    match Dict.get (msg_uuid msg) (tunnels (loc w)) with
    | None =>
        _from_proxy E msg w
        = (Ok tt, record (Logging DEBUG "Data arrived from a proxy we already closed") w)
        /\ _close_proxy E msg w
           = (Ok tt, record (Logging DEBUG "Asked to close a proxy that we already closed") w)
    | Some t =>
        _from_proxy E msg w
        = match tunnel_from_proxy E t msg with
          | Raise KeyError =>
              (Ok tt, record (Logging DEBUG "Data arrived from a proxy we already closed")
                             (record (TunnelFromProxy t msg) w))
          | r => (r, record (TunnelFromProxy t msg) w)
          end
        /\ _close_proxy E msg w
           = match tunnel_close_proxy E t msg with
             | Raise KeyError =>
                 (Ok tt, record (Logging DEBUG "Asked to close a proxy that we already closed")
                                (record (TunnelCloseProxy t msg) w))
             | r => (r, record (TunnelCloseProxy t msg) w)
             end
    end
    /\ loc (snd (_from_proxy E msg w)) = loc w
    /\ loc (snd (_close_proxy E msg w)) = loc w.
Proof.
  intros E msg w.
  unfold _from_proxy, _close_proxy, try_except_KeyError, tunnels_getitem, bind,
    get_self, call_env, call, ret, raise.
  destruct (Dict.get (msg_uuid msg) (tunnels (loc w))) as [t|]; simpl.
  - destruct (tunnel_from_proxy E t msg) as [[]|[]];
      destruct (tunnel_close_proxy E t msg) as [[]|[]]; simpl; auto.
  - auto.
Qed.

(** ** Volumes *)

Module TaggedCollectionFacts.
Import TaggedCollection.

Lemma same_sym v w : same v w = same w v.
Proof. unfold same. now rewrite (String.eqb_sym (Volume.user v)), (String.eqb_sym (Volume.uuid v)). Qed.

Lemma same_trans u v w : same u v = true -> same v w = true -> same u w = true.
Proof.
  unfold same. rewrite !andb_true_iff, !String.eqb_eq.
  intros [-> ->] [-> ->]. now split.
Qed.

Lemma contains_same v w c :
  same v w = true -> contains v c = contains w c.
Proof.
  intros H. unfold contains. induction c as [|x c IH]; simpl; [reflexivity|].
  rewrite IH. f_equal.
  destruct (same v x) eqn:E1, (same w x) eqn:E2; try reflexivity.
  - rewrite same_sym in H. now rewrite (same_trans _ _ _ H E1) in E2.
  - now rewrite (same_trans _ _ _ H E2) in E1.
Qed.

(** On a registry without duplicates [remove_first] takes out the
    volume and leaves every other one. *)
Lemma remove_first_spec v c :
  wf c ->
  contains v (remove_first v c) = false
  /\ (forall x, same v x = false -> In x (remove_first v c) <-> In x c).
Proof.
  induction c as [|w c IH]; simpl.
  - intros _. split; [reflexivity|tauto].
  - intros [Hw Hc]. destruct (IH Hc) as [IH1 IH2].
    destruct (same v w) eqn:E.
    + split.
      * now rewrite (contains_same _ _ _ E).
      * intros x Hx. split; [tauto|]. intros [<-|H]; [congruence|assumption].
    + split.
      * simpl. now rewrite E, IH1.
      * intros x Hx. simpl. now rewrite IH2.
Qed.

End TaggedCollectionFacts.

(** C5, as the code has it.  On a connected location [destroy_volume]
    first sends the blocking command [destroy_volume] with the user key
    and the volume's uuid, whether or not the registry holds the volume.
    If the command fails its error is raised and the registry is what it
    was.  If it succeeds: for a volume the registry does not hold the
    removal fails with NotFound and the registry is what it was; for one
    it holds the call returns with that volume out of the registry and
    every other volume still in it. *)
Theorem destroy_volume_sends_first :
  forall (E : Env) (v : Volume.t) (w : World) (c : Connection),
    conn (loc w) = Some c ->
    let params := [("user", user_pk (loc w)); ("volume", Volume.uuid v)] in
    let sent := record (ConnSendBlockingCmd "destroy_volume" params) w in
    let logged :=
      record (Logging INFO ("Destroyed volume: " ++ str_of_bytes (Volume.uuid v)))
             sent in
    match conn_send_blocking_cmd E "destroy_volume" params with
    | Raise e => destroy_volume E (IsVolume v) w = (Raise e, sent)
    | Ok _ =>
        if TaggedCollection.contains v (volumes (loc w))
        then destroy_volume E (IsVolume v) w
             = (Ok tt,
                {| loc := set_volumes
                            (TaggedCollection.remove_first v (volumes (loc w)))
                            (loc w);
                   trace := trace logged |})
        else destroy_volume E (IsVolume v) w = (Raise NotFoundError, logged)
    end
    /\ volumes (loc sent) = volumes (loc w)
    /\ volumes (loc logged) = volumes (loc w)
    /\ (TaggedCollection.wf (volumes (loc w)) ->
        TaggedCollection.contains v
          (TaggedCollection.remove_first v (volumes (loc w))) = false
        /\ forall x, TaggedCollection.same v x = false ->
             (In x (TaggedCollection.remove_first v (volumes (loc w)))
              <-> In x (volumes (loc w)))).
Proof.
  intros E v w c Hc params sent logged.
  split; [|split; [reflexivity|split; [reflexivity|]]].
  - unfold destroy_volume, with_conn, bind, get_self, call_env, call, modify, raise.
    rewrite Hc. fold params.
    destruct (conn_send_blocking_cmd E "destroy_volume" params) as [m|e];
      [|reflexivity].
    simpl. unfold TaggedCollection.remove.
    destruct (TaggedCollection.contains v (volumes (loc w))); reflexivity.
  - apply TaggedCollectionFacts.remove_first_spec.
Qed.

Lemma destroy_volume_sends_first_witness :
  destroy_volume obliging_env (IsVolume example_volume) example_world
  = (Ok tt,
     {| loc := set_volumes [] example_location;
        trace := [ {| ev_call := ConnSendBlockingCmd "destroy_volume"
                                   [("user", "pk"); ("volume", "vol1")];
                      ev_state := example_location |};
                   {| ev_call := Logging INFO "Destroyed volume: b'vol1'";
                      ev_state := example_location |} ] |}).
Proof.
  exact (proj1 (destroy_volume_sends_first obliging_env example_volume example_world
                  "tiny.20ft.nz" eq_refl)).
Defined.

(** The claim of C5 on a volume the registry does not hold, with a
    location that rejects the command: the command is sent all the same
    and the error raised is the location's, not NotFound. *)
Lemma destroy_unknown_volume_remote_error :
  TaggedCollection.contains unknown_volume (volumes (loc example_world)) = false
  /\ fst (destroy_volume refusing_env (IsVolume unknown_volume) example_world)
     = Raise (CollaboratorError "rejected")
  /\ fst (destroy_volume refusing_env (IsVolume unknown_volume) example_world)
     <> Raise NotFoundError
  /\ map ev_call
       (trace (snd (destroy_volume refusing_env (IsVolume unknown_volume) example_world)))
     = [ConnSendBlockingCmd "destroy_volume" [("user", "pk"); ("volume", "vol9")]].
Proof.
  split; [reflexivity|]. split; [reflexivity|]. split; [discriminate|reflexivity].
Qed.

(** ** Heartbeat *)









(** ** The operations on the example location *)

Example abspath_relative :
  PosixPath.abspath "/home/u" "a/../b//c/." = "/home/u/b/c".
Proof. reflexivity. Qed.

Example abspath_two_slashes cwd : PosixPath.abspath cwd "//a/../../b" = "//b".
Proof. reflexivity. Qed.

Example trees_intersect_relative :
  Volume.trees_intersect (PosixPath.abspath "/srv") ["data/db"; "/var/log"] "/srv/data"
  = Some ("/srv/data/db", "/srv/data").
Proof. reflexivity. Qed.

Example ranked_nodes_memory :
  option_map (map node_pk)
    (match ranked_nodes example_location memory with
     | Ok l => Some l
     | Raise _ => None
     end)
  = Some ["node2"; "node1"; "node3"].
Proof. reflexivity. Qed.

Example ranked_nodes_cpu :
  option_map (map node_pk)
    (match ranked_nodes example_location cpu with
     | Ok l => Some l
     | Raise _ => None
     end)
  = Some ["node3"; "node1"; "node2"].
Proof. reflexivity. Qed.

Example disconnect_calls :
  map ev_call (trace (snd (disconnect calm example_world)))
  = [ Logging INFO "Disconnecting";
      EndpointUnpublish {| ep_domain := "my.com";
                           ep_clusters := [("cl1", {| cluster_uuid := "cl1" |})] |}
                        {| cluster_uuid := "cl1" |};
      TunnelDestroy example_tunnel;
      ConnDisconnect ].
Proof. reflexivity. Qed.

(** ** More on strings *)

Module PyStrOpsFacts.
Import PyStr PyStrFacts PyStrOps.

Lemma append_assoc (a b c : string) : (a ++ b) ++ c = a ++ (b ++ c).
Proof. induction a; simpl; congruence. Qed.

Lemma take_full s : take (len s) s = s.
Proof. rewrite <- (app_empty_r s) at 2. apply take_app. Qed.

Lemma contains_app c a b : contains c (a ++ b) = contains c a || contains c b.
Proof. induction a as [|x a IH]; simpl; [reflexivity|]. now rewrite IH, orb_assoc. Qed.

Lemma rindex_none c s : rindex c s = None <-> contains c s = false.
Proof.
  induction s as [|a s IH]; simpl; [tauto|].
  destruct (rindex c s) as [i|].
  - split; [discriminate|]. intros H. apply orb_false_iff in H.
    destruct H as [_ H]. apply IH in H. discriminate.
  - assert (Hs : contains c s = false) by now apply IH.
    rewrite Hs, orb_false_r. destruct (Ascii.eqb a c); split; congruence.
Qed.

(** The last occurrence cuts [s] in two, and none follows it. *)
Lemma rindex_some c s i :
  rindex c s = Some i ->
  s = take i s ++ String c (drop (S i) s)
  /\ contains c (drop (S i) s) = false
  /\ (i < len s)%nat.
Proof.
  revert i. induction s as [|a s IH]; simpl; [discriminate|].
  intros i. destruct (rindex c s) as [j|] eqn:Hj.
  - intros [= <-]. destruct (IH j eq_refl) as (H1 & H2 & H3).
    change (drop (S (S j)) (String a s)) with (drop (S j) s).
    rewrite take_S. split; [cbn [append]; f_equal; exact H1|].
    split; [assumption|]. unfold len in *. simpl. lia.
  - destruct (Ascii.eqb a c) eqn:E; [|discriminate]. intros [= <-].
    apply Ascii.eqb_eq in E. subst a. rewrite take_0.
    change (drop 1 (String c s)) with s.
    split; [reflexivity|]. split; [now apply rindex_none|].
    unfold len. simpl. lia.
Qed.

Lemma contains_rindex c s : contains c s = true -> exists i, rindex c s = Some i.
Proof.
  intros H. destruct (rindex c s) as [i|] eqn:E; [eauto|].
  apply rindex_none in E. congruence.
Qed.

Lemma span_spec p s run rest :
  span p s = (run, rest) ->
  s = run ++ rest
  /\ all_in p run
  /\ match rest with String a _ => p a = false | EmptyString => True end.
Proof.
  revert run rest. induction s as [|a s IH]; simpl; intros run rest.
  - intros [= <- <-]. repeat split. intros a [=].
  - destruct (p a) eqn:Hp.
    + destruct (span p s) as [r t]. intros [= <- <-].
      destruct (IH r t eq_refl) as (H1 & H2 & H3).
      split; [simpl; now rewrite <- H1|]. split; [|assumption].
      intros x Hx. simpl in Hx. apply orb_true_iff in Hx.
      destruct Hx as [Hx|Hx]; [apply Ascii.eqb_eq in Hx; now subst|auto].
    + intros [= <- <-]. repeat split; [intros x [=]|assumption].
Qed.

Lemma all_in_not_contains p s c : all_in p s -> p c = false -> contains c s = false.
Proof.
  intros H Hc. destruct (contains c s) eqn:E; [|reflexivity].
  apply H in E. congruence.
Qed.

Lemma split_no_sep c s : contains c s = false -> split c s = [s].
Proof.
  induction s as [|a s IH]; simpl; [reflexivity|].
  intros H. apply orb_false_iff in H. destruct H as [Ha Hs].
  rewrite Ha, (IH Hs). reflexivity.
Qed.

Lemma split_app c a b :
  contains c a = false -> split c (a ++ String c b) = a :: split c b.
Proof.
  induction a as [|x a IH]; simpl.
  - intros _. now rewrite Ascii.eqb_refl.
  - intros H. apply orb_false_iff in H. destruct H as [Hx Ha].
    rewrite Hx, (IH Ha). reflexivity.
Qed.

Lemma drop_len_app a b : drop (len a) (a ++ b) = b.
Proof. induction a; simpl; auto. Qed.

Lemma existsb_eqb_In x l : existsb (String.eqb x) l = true <-> In x l.
Proof.
  rewrite existsb_exists. split.
  - intros (y & Hy & E). apply String.eqb_eq in E. now subst.
  - intros H. exists x. split; [assumption|apply String.eqb_refl].
Qed.

Lemma existsb_eqb_not_In x l : existsb (String.eqb x) l = false <-> ~ In x l.
Proof.
  rewrite <- existsb_eqb_In. destruct (existsb (String.eqb x) l); intuition congruence.
Qed.

End PyStrOpsFacts.

(** ** The mount conflict check, further *)

Lemma paths_conflict_sym p c : Volume.paths_conflict p c -> Volume.paths_conflict c p.
Proof. unfold Volume.paths_conflict. intros [H|[H|H]]; auto. Qed.

Lemma paths_conflict_refl p : Volume.paths_conflict p p.
Proof. right. right. reflexivity. Qed.

(** X1. Whether [trees_intersect] finds a conflict does not depend on the
    order in which the claimed paths are visited. *)
Theorem trees_intersect_any_order :
  forall (abspath : string -> string) (current current' : list string)
         (proposed : string),
    Permutation current current' ->
    (Volume.trees_intersect abspath current proposed = None
     <-> Volume.trees_intersect abspath current' proposed = None).
Proof.
  intros abspath current current' proposed Hperm. unfold Volume.trees_intersect.
  rewrite !VolumeFacts.loop_none. split; intros H cur Hin; apply H.
  - now apply (Permutation_in _ (Permutation_sym Hperm)).
  - now apply (Permutation_in _ Hperm).
Qed.

Lemma trees_intersect_any_order_witness :
  Volume.trees_intersect (PosixPath.abspath "/") ["/a"; "/b/c"] "/b" <> None
  /\ Volume.trees_intersect (PosixPath.abspath "/") ["/b/c"; "/a"] "/b" <> None.
Proof.
  assert (H : Volume.trees_intersect (PosixPath.abspath "/") ["/a"; "/b/c"] "/b" <> None)
    by (vm_compute; discriminate).
  split; [exact H|].
  intros H'. apply H.
  apply (trees_intersect_any_order (PosixPath.abspath "/") ["/a"; "/b/c"] ["/b/c"; "/a"]
           "/b" (perm_swap _ _ _)).
  exact H'.
Defined.

(** X2. The check is symmetric: a claimed path against a proposed one
    gives the answer the proposed one gives against the claimed one, the
    same pair included. *)
Theorem trees_intersect_symmetric :
  forall (abspath : string -> string) (a b : string),
    Volume.trees_intersect abspath [a] b = Volume.trees_intersect abspath [b] a.
Proof.
  intros abspath a b. unfold Volume.trees_intersect. simpl.
  set (pa := abspath a). set (pb := abspath b).
  destruct (len pa <? len pb)%nat eqn:E1; destruct (len pb <? len pa)%nat eqn:E2;
    try reflexivity.
  - apply Nat.ltb_lt in E1. apply Nat.ltb_lt in E2. lia.
  - apply Nat.ltb_ge in E1. apply Nat.ltb_ge in E2.
    assert (Hl : len pa = len pb) by lia.
    replace (PyStr.take (len pb) pa) with pa
      by (rewrite <- Hl; symmetry; apply PyStrOpsFacts.take_full).
    replace (PyStr.take (len pa) pb) with pb
      by (rewrite Hl; symmetry; apply PyStrOpsFacts.take_full).
    rewrite (String.eqb_sym pb pa).
    destruct (String.eqb pa pb) eqn:E; [|reflexivity].
    apply String.eqb_eq in E. now rewrite E.
Qed.

(** ** The argument loops of [tf] *)

Module TfFacts.
Import PyStr PyStrFacts PyStrOps PyStrOpsFacts Tf.

Lemma ForallOrdPairs_snoc {A} (R : A -> A -> Prop) l x :
  ForallOrdPairs R l -> Forall (fun a => R a x) l -> ForallOrdPairs R (l ++ [x]).
Proof.
  intros Hl Hx. induction Hl as [|a l Ha Hl IH]; simpl.
  - repeat constructor.
  - inversion Hx as [|? ? Hax Hx']; subst. constructor; [|now apply IH].
    apply Forall_app. split; [assumption|now constructor].
Qed.

(** The split of a mount argument at its last colon. *)
Lemma split_at_last_colon m :
  contains ":" m = true ->
  m = slice_to m (rfind ":" m) ++ ":" ++ slice_from m (rfind ":" m + 1)
  /\ contains ":" (slice_from m (rfind ":" m + 1)) = false.
Proof.
  intros H. destruct (contains_rindex _ _ H) as [i Hi].
  destruct (rindex_some _ _ _ Hi) as (H1 & H2 & H3).
  unfold rfind, slice_to, slice_from, bound. rewrite Hi.
  replace (Z.of_nat i <? 0)%Z with false by (symmetry; apply Z.ltb_ge; lia).
  replace (Z.of_nat i + 1 <? 0)%Z with false by (symmetry; apply Z.ltb_ge; lia).
  rewrite Nat2Z.id. replace (Z.to_nat (Z.of_nat i + 1)) with (S i) by lia.
  split; [exact H1|exact H2].
Qed.

Section MountLoop.
Variable abspath : string -> string.
Variable iter : list string -> list string.
Variable volumes_get : string -> result Volume.t.
Hypothesis iter_perm : forall l, Permutation l (iter l).

Lemma accepted_mount_is_new mount mount_points :
  Volume.trees_intersect abspath (iter mount_points) mount = None ->
  ~ In mount mount_points
  /\ Forall (fun a => ~ Volume.paths_conflict (abspath a) (abspath mount)) mount_points.
Proof.
  unfold Volume.trees_intersect. rewrite VolumeFacts.loop_none. intros H.
  assert (H' : forall cur, In cur mount_points ->
                 ~ Volume.paths_conflict (abspath mount) (abspath cur)).
  { intros cur Hin. apply H. now apply (Permutation_in _ (iter_perm mount_points)). }
  split.
  - intros Hin. apply (H' mount Hin). apply paths_conflict_refl.
  - apply Forall_forall. intros a Ha Hc. apply (H' a Ha). now apply paths_conflict_sym.
Qed.

Lemma mount_loop_invariant args_m :
  forall volumes mount_points volumes' mount_points',
    mount_loop abspath iter volumes_get args_m volumes mount_points
    = Continue (volumes', mount_points') ->
    conflict_free abspath mount_points ->
    map snd volumes = mount_points ->
    conflict_free abspath mount_points' /\ map snd volumes' = mount_points'.
Proof.
  induction args_m as [|m rest IH]; intros vols mps vols' mps'; simpl.
  - intros [= <- <-]. auto.
  - destruct (contains ":" m); simpl; [|discriminate].
    destruct (Volume.trees_intersect abspath (iter mps) _) as [[sub sup]|] eqn:Hti;
      [discriminate|].
    destruct (volumes_get _) as [vol|e]; [|discriminate].
    destruct (accepted_mount_is_new _ _ Hti) as [Hnew Hfree].
    unfold set_add. apply existsb_eqb_not_In in Hnew. rewrite Hnew.
    intros Hrun Hcf Hmap. apply (IH _ _ _ _ Hrun).
    + now apply ForallOrdPairs_snoc.
    + rewrite map_app, Hmap. reflexivity.
Qed.

End MountLoop.

Lemma match_env_spec e group0 :
  match_env e = Some group0 ->
  exists variable value,
    group0 = variable ++ "=" /\ e = variable ++ "=" ++ value
    /\ variable <> "" /\ all_in is_env_char variable.
Proof.
  unfold match_env. destruct (span is_env_char e) as [run rest] eqn:Hs.
  destruct (span_spec _ _ _ _ Hs) as (He & Hall & _).
  destruct run as [|a run]; [discriminate|].
  destruct rest as [|c rest]; [discriminate|].
  destruct c as [[] [] [] [] [] [] [] []]; try discriminate.
  intros [= <-]. exists (String a run), rest. repeat split; try assumption.
  discriminate.
Qed.

Lemma variable_of_group0 variable : slice_to (variable ++ "=") (-1) = variable.
Proof.
  unfold slice_to, bound. change (-1 <? 0)%Z with true. cbv iota.
  rewrite len_app. change (len "=") with 1%nat.
  replace (Z.to_nat (Z.max 0 (Z.of_nat (len variable + 1) + -1))) with (len variable)
    by lia.
  apply take_app.
Qed.

Lemma value_after_variable variable value :
  slice_from (variable ++ "=" ++ value) (Z.of_nat (len variable) + 1) = value.
Proof.
  unfold slice_from, bound.
  replace (Z.of_nat (len variable) + 1 <? 0)%Z with false
    by (symmetry; apply Z.ltb_ge; lia).
  replace (Z.to_nat (Z.of_nat (len variable) + 1)) with (len (variable ++ "="))
    by (rewrite len_app; change (len "=") with 1%nat; lia).
  rewrite <- append_assoc. apply drop_len_app.
Qed.

Lemma environment_loop_invariant args_e :
  forall e_vars environment e_vars' environment',
    environment_loop args_e e_vars environment = Continue (e_vars', environment') ->
    NoDup e_vars -> map fst environment = e_vars ->
    Forall (fun v => v <> "" /\ all_in is_env_char v) e_vars ->
    NoDup e_vars' /\ map fst environment' = e_vars'
    /\ Forall (fun v => v <> "" /\ all_in is_env_char v) e_vars'
    /\ map env_arg environment' = (map env_arg environment ++ args_e)%list.
Proof.
  induction args_e as [|e rest IH]; intros vars env vars' env'; simpl.
  - intros [= <- <-]. rewrite app_nil_r. auto.
  - destruct (match_env e) as [group0|] eqn:Hm; [|discriminate].
    destruct (match_env_spec _ _ Hm) as (variable & value & -> & -> & Hne & Hall).
    rewrite variable_of_group0, value_after_variable.
    destruct (existsb (String.eqb variable) vars) eqn:Hin; [discriminate|].
    apply existsb_eqb_not_In in Hin.
    intros Hrun Hnd Hmap Hok.
    destruct (IH _ _ _ _ Hrun) as (H1 & H2 & H3 & H4).
    + apply NoDup_app; [assumption|repeat constructor; intros []|].
      intros x Hx [<-|[]]. contradiction.
    + rewrite map_app, Hmap. reflexivity.
    + apply Forall_app. split; [assumption|]. repeat constructor; assumption.
    + repeat split; try assumption.
      rewrite H4, map_app, <- app_assoc. reflexivity.
Qed.

Section PortmapFacts.
Variable digit_at : string -> nat.
Hypothesis digits_colon_free : colon_free digit_at.

Lemma digits_spec fuel :
  forall s run rest,
    digits digit_at fuel s = (run, rest) ->
    s = run ++ rest /\ contains ":" run = false.
Proof.
  induction fuel as [|fuel IH]; intros s run rest; cbn [digits].
  - intros [= <- <-]. split; reflexivity.
  - destruct (digit_at s) as [|n] eqn:Hn.
    + intros [= <- <-]. split; reflexivity.
    + destruct (digits digit_at fuel (drop (S n) s)) as [r t] eqn:Hd.
      intros [= <- <-]. destruct (IH _ _ _ Hd) as [H1 H2]. split.
      * rewrite append_assoc, <- H1. symmetry. apply take_drop.
      * rewrite contains_app, H2, orb_false_r. rewrite <- Hn.
        apply digits_colon_free.
Qed.

Lemma match_portmap_spec e :
  match_portmap digit_at e = true ->
  exists local remote,
    e = local ++ ":" ++ remote
    /\ local <> "" /\ contains ":" local = false
    /\ remote <> "" /\ contains ":" remote = false.
Proof.
  unfold match_portmap. destruct (digits digit_at (len e) e) as [local rest] eqn:Hs.
  destruct (digits_spec _ _ _ _ Hs) as (He & Hl).
  destruct local as [|a local]; [discriminate|].
  destruct rest as [|c rest]; [discriminate|].
  destruct c as [[] [] [] [] [] [] [] []]; try discriminate.
  destruct (digits digit_at (len rest) rest) as [remote tail] eqn:Hs2.
  destruct (digits_spec _ _ _ _ Hs2) as (He2 & Hr).
  destruct remote as [|b remote]; [discriminate|].
  intros Ht. exists (String a local), rest.
  split; [exact He|]. split; [discriminate|]. split; [exact Hl|].
  split; [rewrite He2; discriminate|].
  rewrite He2, contains_app, Hr.
  destruct tail as [|t tail]; [reflexivity|].
  destruct t as [[] [] [] [] [] [] [] []]; try discriminate.
  destruct tail; [reflexivity|discriminate].
Qed.

Lemma split_portmap local remote :
  contains ":" local = false -> contains ":" remote = false ->
  split ":" (local ++ ":" ++ remote) = [local; remote].
Proof.
  intros Hl Hr.
  change (local ++ ":" ++ remote) with (local ++ String ":" remote).
  rewrite split_app by assumption. now rewrite split_no_sep.
Qed.

Lemma portmap_loop_invariant args_p :
  forall l_ports portmap,
    NoDup l_ports -> map fst portmap = l_ports ->
    match portmap_loop digit_at args_p l_ports portmap with
    | Continue (l_ports', portmap') =>
        NoDup l_ports' /\ map fst portmap' = l_ports'
        /\ exists added, portmap' = (portmap ++ added)%list
                         /\ Forall2 portmap_entry args_p added
    | Return1 _ => True
    | Uncaught _ => False
    end.
Proof.
  induction args_p as [|e rest IH]; intros ports pm Hnd Hmap; simpl.
  - repeat split; try assumption. exists []. rewrite app_nil_r. split; constructor.
  - destruct (match_portmap digit_at e) eqn:Hm; simpl; [|exact I].
    destruct (match_portmap_spec _ Hm)
      as (local & remote & -> & Hl1 & Hl2 & Hr1 & Hr2).
    rewrite split_portmap by assumption.
    destruct (existsb (String.eqb local) ports) eqn:Hin; [exact I|].
    apply existsb_eqb_not_In in Hin.
    specialize (IH (ports ++ [local])%list (pm ++ [(local, remote)])%list).
    destruct (portmap_loop digit_at rest _ _) as [[ports' pm']|?|?].
    + destruct IH as (H1 & H2 & added & H3 & H4).
      * apply NoDup_app; [assumption|repeat constructor; intros []|].
        intros x Hx [<-|[]]. contradiction.
      * rewrite map_app, Hmap. reflexivity.
      * repeat split; try assumption.
        exists ((local, remote) :: added). split.
        -- rewrite H3, <- app_assoc. reflexivity.
        -- constructor; [|assumption]. unfold portmap_entry. simpl.
           repeat split; assumption.
    + exact I.
    + apply IH.
      * apply NoDup_app; [assumption|repeat constructor; intros []|].
        intros x Hx [<-|[]]. contradiction.
      * rewrite map_app, Hmap. reflexivity.
Qed.

End PortmapFacts.

Lemma in_range_not lo hi a c :
  in_range lo hi a = true -> in_range lo hi c = false -> Ascii.eqb a c = false.
Proof.
  intros Ha Hc. destruct (Ascii.eqb a c) eqn:E; [|reflexivity].
  apply Ascii.eqb_eq in E. subst. congruence.
Qed.

Lemma some_digit_at_colon_free : colon_free some_digit_at.
Proof.
  intros s. unfold some_digit_at. destruct s as [|a rest]; [reflexivity|].
  destruct (in_range "0" "9" a) eqn:Ea.
  - rewrite take_S, take_0. simpl. rewrite orb_false_r.
    now apply (in_range_not "0" "9").
  - destruct (Ascii.eqb a "217") eqn:E217; [|now rewrite take_0].
    apply Ascii.eqb_eq in E217. subst a.
    destruct rest as [|b rest]; [reflexivity|].
    destruct (in_range "160" "169" b) eqn:Eb; [|now rewrite take_0].
    rewrite !take_S, take_0. simpl. rewrite orb_false_r.
    now apply (in_range_not "160" "169").
Qed.

Lemma mount_loop_entries abspath iter volumes_get args_m :
  forall volumes mount_points volumes' mount_points',
    mount_loop abspath iter volumes_get args_m volumes mount_points
    = Continue (volumes', mount_points') ->
    exists added, volumes' = (volumes ++ added)%list
                  /\ Forall2 (mount_entry volumes_get) args_m added.
Proof.
  induction args_m as [|m rest IH]; intros vols mps vols' mps'; simpl.
  - intros [= <- <-]. exists []. rewrite app_nil_r. split; constructor.
  - destruct (contains ":" m) eqn:Hc; simpl; [|discriminate].
    destruct (Volume.trees_intersect abspath (iter mps) _) as [[sub sup]|];
      [discriminate|].
    destruct (volumes_get _) as [vol|e] eqn:Hg; [|discriminate].
    intros Hrun. destruct (IH _ _ _ _ Hrun) as (added & -> & Hadded).
    eexists (_ :: added). split; [rewrite <- app_assoc; reflexivity|].
    constructor; [|assumption].
    destruct (split_at_last_colon m Hc) as [H1 H2].
    eexists. simpl. split; [exact H1|]. split; [exact H2|exact Hg].
Qed.

End TfFacts.


(** X3. When the [-m] loop of [tf] accepts all its arguments, no two of
    the mount points it hands on conflict after normalisation, in whatever
    order the set of mount points is visited; in particular no mount
    point is given twice. *)
Theorem mount_points_conflict_free :
  forall (abspath : string -> string) (iter : list string -> list string)
         (volumes_get : string -> result Volume.t) (args_m : option (list string))
         (volumes : list (Volume.t * string)) (mount_points : list string),
    (forall l, Permutation l (iter l)) ->
    Tf.mounts_of abspath iter volumes_get args_m = Continue (volumes, mount_points) ->
    Tf.conflict_free abspath mount_points
    /\ map snd volumes = mount_points
    /\ NoDup mount_points.
Proof.
  intros abspath iter volumes_get args_m volumes mount_points Hperm Hrun.
  assert (H : Tf.conflict_free abspath mount_points /\ map snd volumes = mount_points).
  { destruct args_m as [ms|]; simpl in Hrun.
    - apply (TfFacts.mount_loop_invariant abspath iter volumes_get Hperm ms [] []);
        [assumption|constructor|reflexivity].
    - injection Hrun as <- <-. split; [constructor|reflexivity]. }
  destruct H as [Hcf Hmap]. repeat split; try assumption.
  clear - Hcf. induction Hcf as [|a l Ha Hl IH]; constructor; [|assumption].
  intros Hin. rewrite Forall_forall in Ha. apply (Ha a Hin).
  apply paths_conflict_refl.
Qed.

Lemma mount_points_conflict_free_witness :
  Tf.conflict_free (PosixPath.abspath "/") ["/mnt/x"; "/mnt/y"].
Proof.
  exact (proj1 (mount_points_conflict_free
                  (PosixPath.abspath "/") (fun l => l)
                  (fun key => Ok (Volume.mk "pk" key None))
                  (Some ["vol1:/mnt/x"; "vol2:/mnt/y"])
                  [(Volume.mk "pk" "vol1" None, "/mnt/x");
                   (Volume.mk "pk" "vol2" None, "/mnt/y")]
                  ["/mnt/x"; "/mnt/y"]
                  (fun l => Permutation_refl l) eq_refl)).
Defined.

(** X4. Every [-m] argument the loop accepts is cut at its last colon:
    the argument is key, colon, mount point; the mount point holds no
    colon (the key may); and the volume kept with the mount point is the
    one the registry gives for the key. *)
Theorem mount_arguments_cut_at_last_colon :
  forall (abspath : string -> string) (iter : list string -> list string)
         (volumes_get : string -> result Volume.t) (args_m : option (list string))
         (volumes : list (Volume.t * string)) (mount_points : list string),
    Tf.mounts_of abspath iter volumes_get args_m = Continue (volumes, mount_points) ->
    Forall2 (Tf.mount_entry volumes_get) (Tf.given args_m) volumes.
Proof.
  intros abspath iter volumes_get args_m volumes mount_points Hrun.
  destruct args_m as [ms|]; simpl in *.
  - destruct (TfFacts.mount_loop_entries _ _ _ _ _ _ _ _ Hrun) as (added & -> & H).
    exact H.
  - injection Hrun as <- <-. constructor.
Qed.

Lemma mount_arguments_cut_at_last_colon_witness :
  Forall2 (Tf.mount_entry (fun key => Ok (Volume.mk "pk" key None)))
          ["a:b:/mnt/x"]
          [(Volume.mk "pk" "a:b" None, "/mnt/x")].
Proof.
  exact (mount_arguments_cut_at_last_colon
           (PosixPath.abspath "/") (fun l => l)
           (fun key => Ok (Volume.mk "pk" key None))
           (Some ["a:b:/mnt/x"])
           [(Volume.mk "pk" "a:b" None, "/mnt/x")] ["/mnt/x"] eq_refl).
Defined.

(** X5. When the [-e] loop of [tf] accepts all its arguments, every
    argument is its variable, "=", its value, so the arguments can be
    read back from the environment list; every variable is a non-empty
    run of the characters 0-9, A-Z and _; and no variable comes twice. *)
Theorem environment_variables_distinct :
  forall (args_e : option (list string)) (e_vars : list string)
         (environment : list (string * string)),
    Tf.environment_of args_e = Continue (e_vars, environment) ->
    map Tf.env_arg environment = Tf.given args_e
    /\ map fst environment = e_vars
    /\ NoDup e_vars
    /\ Forall (fun v => v <> "" /\ PyStrOps.all_in PyStrOps.is_env_char v) e_vars.
Proof.
  intros args_e e_vars environment Hrun.
  destruct args_e as [es|]; simpl in *.
  - destruct (TfFacts.environment_loop_invariant es [] [] _ _ Hrun
                (NoDup_nil _) eq_refl (Forall_nil _))
      as (H1 & H2 & H3 & H4).
    repeat split; assumption.
  - injection Hrun as <- <-. repeat split; constructor.
Qed.

Lemma environment_variables_distinct_witness :
  map Tf.env_arg [("A_1", "x=y"); ("B", "")] = ["A_1=x=y"; "B="]
  /\ NoDup ["A_1"; "B"].
Proof.
  destruct (environment_variables_distinct (Some ["A_1=x=y"; "B="]) ["A_1"; "B"]
              [("A_1", "x=y"); ("B", "")] eq_refl) as (H1 & _ & H3 & _).
  split; [exact H1|exact H3].
Defined.

(** X6. Whatever decimal digits [\d] takes, as long as none of them has
    ":" among its bytes, the [-p] loop of [tf] never fails to unpack
    [e.split(':')].  When it accepts all its arguments, every argument
    is a local part, ":", and a remote part; neither part is empty and
    neither holds a colon; and no local part comes twice, compared as
    text. *)
Theorem portmap_pairs :
  forall (digit_at : string -> nat) (args_p : option (list string)),
    Tf.colon_free digit_at ->
    match Tf.portmap_of digit_at args_p with
    | Continue (l_ports, portmap) =>
        Forall2 Tf.portmap_entry (Tf.given args_p) portmap
        /\ map fst portmap = l_ports
        /\ NoDup l_ports
    | Return1 _ => True
    | Uncaught _ => False
    end.
Proof.
  intros digit_at [ps|] Hfree; simpl.
  - pose proof (TfFacts.portmap_loop_invariant digit_at Hfree ps [] []
                  (NoDup_nil _) eq_refl) as H.
    destruct (Tf.portmap_loop digit_at ps [] []) as [[ports pm]|?|?]; try assumption.
    destruct H as (H1 & H2 & added & -> & H4). auto.
  - repeat split; constructor.
Qed.

Lemma portmap_pairs_witness :
  Tf.portmap_of Tf.some_digit_at (Some ["8080:80"; Tf.arabic_indic_3_4])
  = Continue (["8080"; String "217" (String "163" "")],
              [("8080", "80");
               (String "217" (String "163" ""), String "217" (String "164" ""))])
  /\ NoDup ["8080"; String "217" (String "163" "")].
Proof.
  pose proof (portmap_pairs Tf.some_digit_at
                (Some ["8080:80"; Tf.arabic_indic_3_4])
                TfFacts.some_digit_at_colon_free) as H.
  assert (E : Tf.portmap_of Tf.some_digit_at (Some ["8080:80"; Tf.arabic_indic_3_4])
              = Continue (["8080"; String "217" (String "163" "")],
                          [("8080", "80");
                           (String "217" (String "163" ""),
                            String "217" (String "164" ""))]))
    by reflexivity.
  rewrite E in H. destruct H as (_ & _ & Hnd). split; [exact E|exact Hnd].
Defined.

(** ** The best node *)

Section SortedHead.
Context {A : Type} (key : A -> Z).

(** The first element of the ranking is the first element of the input
    with the largest key. *)
Lemma sorted_reverse_head l :
  forall n rest,
    sorted_reverse key l = n :: rest ->
    exists before after,
      l = (before ++ n :: after)%list
      /\ Forall (fun m => (key m < key n)%Z) before
      /\ Forall (fun m => (key m <= key n)%Z) after.
Proof.
  induction l as [|x l IH]; intros n rest; simpl; [discriminate|].
  pose proof (sorted_reverse_perm key l) as Hperm.
  pose proof (sorted_reverse_descending key l) as Hdesc.
  destruct (sorted_reverse key l) as [|y s] eqn:Hs; simpl.
  - intros [= <- <-]. apply Permutation_sym, Permutation_nil in Hperm. subst l.
    exists [], []. repeat split; constructor.
  - destruct (key y <=? key x)%Z eqn:Hc.
    + intros [= <- <-]. apply Z.leb_le in Hc.
      exists [], l. split; [reflexivity|]. split; [constructor|].
      apply Forall_forall. intros m Hm.
      apply (Permutation_in _ Hperm) in Hm.
      unfold descending in Hdesc. inversion Hdesc as [|? ? _ Hy]; subst.
      destruct Hm as [<-|Hm]; [assumption|].
      rewrite Forall_forall in Hy. specialize (Hy m Hm). lia.
    + intros [= <- <-]. apply Z.leb_gt in Hc.
      destruct (IH y s eq_refl) as (before & after & -> & Hb & Ha).
      exists (x :: before), after. split; [reflexivity|].
      split; [constructor; assumption|assumption].
Qed.

Lemma sorted_reverse_nil l : sorted_reverse key l = [] -> l = [].
Proof.
  intros H. pose proof (sorted_reverse_perm key l) as Hperm. rewrite H in Hperm.
  now apply Permutation_sym, Permutation_nil in Hperm.
Qed.

End SortedHead.

(** X7. [Location.node] returns, of the nodes with the most memory, the
    one that comes first in the node set: every node before it has
    strictly less memory and no node after it has more.  It raises the
    [ValueError] of [ranked_nodes] exactly when the location has no
    nodes, and never fails on the subscript. *)
Theorem node_first_with_most_memory :
  forall (self : Location),
    match node self with
    | Ok n =>
        exists before after,
          Dict.values (nodes self) = (before ++ n :: after)%list
          /\ Forall (fun m => (stats_memory m < stats_memory n)%Z) before
          /\ Forall (fun m => (stats_memory m <= stats_memory n)%Z) after
    | Raise e =>
        e = ValueError "The location has no nodes" /\ nodes self = []
    end.
Proof.
  intros self. unfold node, ranked_nodes.
  destruct (Dict.values (nodes self)) as [|x l] eqn:Hv.
  - simpl. split; [reflexivity|]. unfold Dict.values in Hv.
    now apply map_eq_nil in Hv.
  - cbn [List.length Nat.eqb].
    destruct (sorted_reverse stats_memory (x :: l)) as [|n rest] eqn:Hs.
    + apply sorted_reverse_nil in Hs. discriminate.
    + now apply (sorted_reverse_head stats_memory (x :: l) n rest).
Qed.

(** ** Tunnels, further *)



Lemma set_tunnels_same s : set_tunnels (tunnels s) s = s.
Proof. now destruct s. Qed.

Lemma set_tunnels_twice d d' s : set_tunnels d (set_tunnels d' s) = set_tunnels d s.
Proof. reflexivity. Qed.










(** X11. When [_tunnel_onto] fails before it gets to connect, no tunnel
    has been entered in the registry: a port or local port given as text
    that [int] rejects raises before the container is waited for and
    leaves the world as it was, and a failed wait for the container
    leaves the location as it was, with only the wait recorded. *)
Theorem tunnel_onto_fails_early :
  forall (E : Env) (container : Container) (port localport : PyPort)
         (addr : option string) (w : World) (e : exn),
    (int_if_str E port = Raise e ->
     _tunnel_onto E container port localport addr w = (Raise e, w))
    /\ (forall p, int_if_str E port = Ok p -> int_if_str E localport = Raise e ->
        _tunnel_onto E container port localport addr w = (Raise e, w))
    /\ (forall p lp, int_if_str E port = Ok p -> int_if_str E localport = Ok lp ->
        container_wait_until_ready E container = Raise e ->
        _tunnel_onto E container port localport addr w
        = (Raise e, record (ContainerWaitUntilReady container) w)).
Proof.
  intros E container port localport addr w e.
  unfold _tunnel_onto, bind, lift, call_env.
  split; [|split].
  - intros H. now rewrite H.
  - intros p Hp H. now rewrite Hp, H.
  - intros p lp Hp Hlp H. now rewrite Hp, Hlp, H.
Qed.

Lemma tunnel_onto_fails_early_witness :
  _tunnel_onto picky_env example_container (PortStr "http") PortNone None example_world
  = (Raise (ValueError "invalid literal for int()"), example_world).
Proof.
  exact (proj1 (tunnel_onto_fails_early picky_env example_container (PortStr "http")
                  PortNone None example_world
                  (ValueError "invalid literal for int()")) eq_refl).
Defined.

(** ** After the teardown *)

(** X12. After a [disconnect] that returned on a connected location,
    what needs the transport fails without reaching the location:
    [destroy_volume] raises [AttributeError] and sends nothing, and
    [_heartbeat] sends no heartbeat, however late it is.  Proxy events
    are swallowed, no uuid being registered any more; [ranked_nodes] has
    no nodes to rank and [endpoint_for] no endpoint to give. *)
Theorem after_disconnect :
  forall (T : Teardown) (E : Env) (w : World) (c : Connection),
    conn (loc w) = Some c ->
    fst (disconnect T w) = Ok tt ->
    let w1 := snd (disconnect T w) in
    (forall v, destroy_volume E (IsVolume v) w1 = (Raise AttributeError, w1))
    /\ (forall now1 now2, trace (snd (_heartbeat now1 now2 w1)) = trace w1)
    /\ (forall msg,
          _from_proxy E msg w1
          = (Ok tt, record (Logging DEBUG "Data arrived from a proxy we already closed") w1)
          /\ _close_proxy E msg w1
             = (Ok tt, record (Logging DEBUG "Asked to close a proxy that we already closed") w1))
    /\ (forall bias,
          ranked_nodes (loc w1) bias = Raise (ValueError "The location has no nodes"))
    /\ (forall fqdn,
          endpoint_for (loc w1) fqdn
          = Raise (ValueError ("There is no endpoint capable of serving: " ++ fqdn))).
Proof.
  intros T E w c Hc Hok w1. subst w1.
  destruct (disconnect_connected T w c Hc) as [H _].
  destruct (H Hok) as [Hl _].
  destruct (snd (disconnect T w)) as [s1 tr1]. simpl in Hl. subst s1.
  split; [|split; [|split; [|split]]].
  - intros v. reflexivity.
  - intros now1 now2. unfold _heartbeat, with_conn, bind, get_self, modify, raise. simpl.
    destruct (PrimFloat.ltb _ _); reflexivity.
  - intros msg. split; reflexivity.
  - intros bias. reflexivity.
  - intros fqdn. reflexivity.
Qed.

Lemma after_disconnect_witness :
  destroy_volume obliging_env (IsVolume example_volume)
                 (snd (disconnect calm example_world))
  = (Raise AttributeError, snd (disconnect calm example_world)).
Proof.
  exact (proj1 (after_disconnect calm obliging_env example_world "tiny.20ft.nz"
                  eq_refl eq_refl)
               example_volume).
Defined.

(** ** Endpoint lookup, further *)

(** X13. [endpoint_for] looks at the text of the name only: the first
    registered domain serves every name that ends with its text, whether
    or not a dot comes before it, so an endpoint for "my.com" serves
    "notmy.com"; and an endpoint registered first with the empty domain
    serves every name. *)
Theorem endpoint_for_ignores_labels :
  forall (self : Location) (domain label : string) (ep : WebEndpoint)
         (rest : Dict.t WebEndpoint),
    endpoint_for (set_endpoints ((domain, ep) :: rest) self) (label ++ domain) = Ok ep
    /\ endpoint_for (set_endpoints (("", ep) :: rest) self) label = Ok ep
    /\ endpoint_for (set_endpoints (("my.com", ep) :: rest) self) "notmy.com" = Ok ep.
Proof.
  intros self domain label ep rest.
  assert (H : forall d l, endpoint_for (set_endpoints ((d, ep) :: rest) self) (l ++ d)
                          = Ok ep).
  { intros d l. unfold endpoint_for, Dict.items. simpl.
    replace (PyStr.endswith (l ++ d) d) with true; [reflexivity|].
    symmetry. apply PyStrFacts.endswith_suffix. now exists l. }
  split; [apply H|]. split.
  - rewrite <- (PyStrFacts.app_empty_r label) at 1. apply H.
  - reflexivity.
Qed.

(** ** Waiting for an http 200 *)

Section PollFacts.
Variable responses : nat -> Response.
Variable url : string.

Lemma poll_loop_counts further :
  forall requests sleeps,
    let p := poll_loop responses url requests sleeps further in
    (S requests <= requests_made p <= requests + S further)%nat
    /\ (sleeps_made p + S requests = sleeps + requests_made p)%nat.
Proof.
  induction further as [|f IH]; intros r s; simpl.
  - destruct (responses r) as [code| |e]; [destruct (code =? 200)%Z| |]; simpl; lia.
  - specialize (IH (S r) (S s)). simpl in IH.
    destruct (responses r) as [code| |e]; [destruct (code =? 200)%Z| |]; simpl; lia.
Qed.

Lemma poll_loop_retried r s further :
  retried (responses r) ->
  poll_loop responses url r s further
  = match further with
    | O => {| poll_result := Raise (ValueError ("Could not connect to: " ++ url));
              requests_made := S r; sleeps_made := s |}
    | S f => poll_loop responses url (S r) (S s) f
    end.
Proof.
  intros H. destruct further; simpl;
    (destruct (responses r) as [code| |e]; simpl in H;
     [apply Z.eqb_neq in H; now rewrite H|reflexivity|contradiction]).
Qed.

Lemma poll_loop_exhausted further :
  forall r s,
    (forall k, (r <= k <= r + further)%nat -> retried (responses k)) ->
    poll_loop responses url r s further
    = {| poll_result := Raise (ValueError ("Could not connect to: " ++ url));
         requests_made := S (r + further); sleeps_made := (s + further)%nat |}.
Proof.
  induction further as [|f IH]; intros r s H.
  - rewrite poll_loop_retried by (apply H; lia). now rewrite !Nat.add_0_r.
  - rewrite poll_loop_retried by (apply H; lia).
    rewrite IH by (intros k Hk; apply H; lia).
    f_equal; lia.
Qed.

Lemma poll_loop_succeeds n :
  forall r s further,
    (forall k, (r <= k < r + n)%nat -> retried (responses k)) ->
    responses (r + n)%nat = Status 200 ->
    (n <= further)%nat ->
    poll_loop responses url r s further
    = {| poll_result := Ok tt; requests_made := S (r + n); sleeps_made := (s + n)%nat |}.
Proof.
  induction n as [|n IH]; intros r s further Hretry Hok Hle.
  - rewrite Nat.add_0_r in *. destruct further; simpl; rewrite Hok; simpl; f_equal; lia.
  - rewrite poll_loop_retried by (apply Hretry; lia).
    destruct further as [|f]; [lia|].
    rewrite (IH (S r) (S s) f).
    + f_equal; lia.
    + intros k Hk. apply Hretry. lia.
    + now replace (S r + n)%nat with (r + S n)%nat by lia.
    + lia.
Qed.

End PollFacts.

(** X14. The polling loop of [_wait_http_200] calls [requests.get] at
    least once and at most 60 times, and sleeps once between two calls.
    It ends well at the first 200, provided every answer before it was
    another status or a [ConnectionError]; after 60 such answers it
    gives up with the [ValueError] "Could not connect to: " and the url,
    having made 60 requests and slept 59 times. *)
Theorem poll_at_most_60_requests :
  forall (responses : nat -> Response) (url : string),
    (1 <= requests_made (poll responses url) <= 60)%nat
    /\ S (sleeps_made (poll responses url)) = requests_made (poll responses url)
    /\ (forall n, (n < 60)%nat ->
          (forall k, (k < n)%nat -> retried (responses k)) ->
          responses n = Status 200 ->
          poll responses url
          = {| poll_result := Ok tt; requests_made := S n; sleeps_made := n |})
    /\ ((forall k, (k < 60)%nat -> retried (responses k)) ->
        poll responses url
        = {| poll_result := Raise (ValueError ("Could not connect to: " ++ url));
             requests_made := 60; sleeps_made := 59 |}).
Proof.
  intros responses url. unfold poll, attempts_remaining.
  change (60 - 1)%nat with 59%nat.
  pose proof (poll_loop_counts responses url 59 0 0) as H. cbv zeta in H.
  set (p := poll_loop responses url 0 0 59) in *. destruct H as [H1 H2].
  split; [lia|]. split; [lia|]. split.
  - intros n Hn Hretry Hok. subst p.
    rewrite (poll_loop_succeeds responses url n 0 0 59); try assumption; try lia.
    + reflexivity.
    + intros k Hk. apply Hretry. lia.
  - intros Hretry. subst p. rewrite poll_loop_exhausted; [reflexivity|].
    intros k Hk. apply Hretry. lia.
Qed.

Lemma poll_at_most_60_requests_witness :
  poll (up_after 2) "http://localhost:8080/"
  = {| poll_result := Ok tt; requests_made := 3; sleeps_made := 2 |}
  /\ poll (fun _ => Status 503) "http://localhost:8080/"
     = {| poll_result := Raise (ValueError "Could not connect to: http://localhost:8080/");
          requests_made := 60; sleeps_made := 59 |}.
Proof.
  destruct (poll_at_most_60_requests (up_after 2) "http://localhost:8080/")
    as (_ & _ & Hok & _).
  destruct (poll_at_most_60_requests (fun _ => Status 503) "http://localhost:8080/")
    as (_ & _ & _ & Hbad).
  split.
  - apply (Hok 2%nat); [lia| |reflexivity].
    intros k Hk. unfold up_after.
    replace (k <? 2)%nat with true by (symmetry; apply Nat.ltb_lt; lia). exact I.
  - apply Hbad. intros k _. simpl. discriminate.
Defined.

Lemma tunnel_onto_ok_registered E container port localport addr w tunnel :
  fst (_tunnel_onto E container port localport addr w) = Ok tunnel ->
  Dict.get (t_uuid tunnel)
           (tunnels (loc (snd (_tunnel_onto E container port localport addr w))))
  = Some tunnel.
Proof.
  unfold _tunnel_onto, bind, lift, call_env, get_self, modify, ret, record.
  destruct (int_if_str E port) as [p|e]; simpl; [|discriminate].
  destruct (int_if_str E localport) as [lp|e]; simpl; [|discriminate].
  destruct (container_wait_until_ready E container) as [[]|e]; simpl; [|discriminate].
  destruct (tunnel_connect E _) as [[]|e]; simpl; [|discriminate].
  intros [= <-]. apply DictFacts.get_set_same.
Qed.

(** X15. [_wait_http_200] does nothing at all for a name that resolves
    to anything but 127.0.0.1: it raises the [ValueError] "FQDN '...'
    does not resolve to localhost" with the world as it was, no tunnel
    opened, no line logged. *)
Theorem wait_http_200_needs_localhost :
  forall (str_of_uuid : string -> string)
         (gethostbyname : string -> result string) (tunnel_localport : Tunnel -> Z)
         (responses : nat -> Response) (E : Env) (container : Container)
         (dest_port localport : PyPort) (fqdn addr : string) (path : option string)
         (w : World),
    gethostbyname fqdn = Ok addr ->
    addr <> "127.0.0.1" ->
    _wait_http_200 str_of_uuid gethostbyname tunnel_localport responses
                   E container dest_port fqdn path localport w
    = (Raise (ValueError ("FQDN '" ++ fqdn ++ "' does not resolve to localhost")), w).
Proof.
  intros str_of_uuid gethostbyname tunnel_localport responses E container dest_port
         localport fqdn addr path w Hres Hne.
  unfold _wait_http_200, bind, lift. rewrite Hres.
  apply String.eqb_neq in Hne. now rewrite Hne.
Qed.

Lemma wait_http_200_needs_localhost_witness :
  _wait_http_200 str_of_bytes (fun _ => Ok "10.0.0.7") (fun _ => 8080%Z) (up_after 0)
                 obliging_env example_container (PortInt 80) "my.com" None PortNone
                 example_world
  = (Raise (ValueError "FQDN 'my.com' does not resolve to localhost"), example_world).
Proof.
  apply (wait_http_200_needs_localhost str_of_bytes (fun _ => Ok "10.0.0.7") (fun _ => 8080%Z)
           (up_after 0) obliging_env example_container (PortInt 80) PortNone
           "my.com" "10.0.0.7" None example_world eq_refl).
  discriminate.
Defined.

(** X16. When [_wait_http_200] has opened its tunnel and the polling
    then fails, the error of the polling is raised and nothing is undone:
    the world is the one the opening of the tunnel left, with the tunnel
    still in the registry and no [tunnel.destroy()] called on it. *)
Theorem wait_http_200_leaves_tunnel :
  forall (str_of_uuid : string -> string)
         (gethostbyname : string -> result string) (tunnel_localport : Tunnel -> Z)
         (responses : nat -> Response) (E : Env) (container : Container)
         (dest_port localport : PyPort) (fqdn : string) (path : option string)
         (w : World) (tnl : Tunnel) (e : exn),
    gethostbyname fqdn = Ok "127.0.0.1" ->
    let w0 := record (Logging INFO ("Waiting on http 200: "
                                    ++ str_of_uuid (c_uuid container))) w in
    fst (_tunnel_onto E container dest_port localport None w0) = Ok tnl ->
    poll_result (poll responses (poll_url tunnel_localport fqdn tnl path)) = Raise e ->
    _wait_http_200 str_of_uuid gethostbyname tunnel_localport responses
                   E container dest_port fqdn path localport w
    = (Raise e, snd (_tunnel_onto E container dest_port localport None w0))
    /\ Dict.get (t_uuid tnl)
                (tunnels (loc (snd (_tunnel_onto E container dest_port localport None w0))))
       = Some tnl.
Proof.
  intros str_of_uuid gethostbyname tunnel_localport responses E container dest_port
         localport fqdn path w tnl e Hres w0 Hopen Hpoll.
  split; [|now apply tunnel_onto_ok_registered].
  unfold _wait_http_200, bind, lift, call. rewrite Hres.
  change (negb ("127.0.0.1" =? "127.0.0.1")) with false. cbv beta iota. fold w0.
  destruct (_tunnel_onto E container dest_port localport None w0) as [r w1].
  simpl in Hopen. subst r. rewrite Hpoll. reflexivity.
Qed.

Lemma wait_http_200_leaves_tunnel_witness :
  fst (_wait_http_200 str_of_bytes (fun _ => Ok "127.0.0.1") (fun _ => 8080%Z)
                      (fun _ => ConnectionError)
                      obliging_env example_container (PortInt 80) "localhost" None
                      PortNone example_world)
  = Raise (ValueError "Could not connect to: http://localhost:8080/").
Proof.
  destruct (wait_http_200_leaves_tunnel str_of_bytes
              (fun _ => Ok "127.0.0.1") (fun _ => 8080%Z) (fun _ => ConnectionError)
              obliging_env example_container (PortInt 80) PortNone "localhost" None
              example_world _ (ValueError "Could not connect to: http://localhost:8080/")
              eq_refl eq_refl eq_refl) as [H _].
  rewrite H. reflexivity.
Defined.

(** ** Resource offers and stat updates *)

Module OfferFacts.
Import PyStrOpsFacts.

Section FoldSet.
Context {V : Type}.
Implicit Types (d : Dict.t V) (items : list (string * V)).

Lemma fold_set_wf items : forall d, Dict.wf d -> Dict.wf (fold_set items d).
Proof.
  induction items as [|[k v] items IH]; intros d H; simpl; [assumption|].
  apply IH. now apply DictFacts.set_wf.
Qed.

Lemma keys_set_In k v d x :
  In x (Dict.keys (Dict.set k v d)) <-> In x (Dict.keys d) \/ x = k.
Proof.
  rewrite DictFacts.keys_set.
  destruct (existsb (String.eqb k) (Dict.keys d)) eqn:E.
  - apply existsb_eqb_In in E. split; [auto|]. intros [H| ->]; assumption.
  - rewrite in_app_iff. simpl. intuition.
Qed.

Lemma fold_set_keys items :
  forall d x, In x (Dict.keys (fold_set items d))
              <-> In x (Dict.keys d) \/ In x (map fst items).
Proof.
  induction items as [|[k v] items IH]; intros d x; simpl; [tauto|].
  rewrite IH, keys_set_In. intuition.
Qed.

Lemma fold_set_get_other items :
  forall d k, ~ In k (map fst items) -> Dict.get k (fold_set items d) = Dict.get k d.
Proof.
  induction items as [|[k' v] items IH]; intros d k H; simpl; [reflexivity|].
  simpl in H.
  assert (H1 : ~ In k (map fst items)) by (intros Hin; apply H; now right).
  assert (H2 : k <> k') by (intros Heq; apply H; now left).
  rewrite (IH _ _ H1). now apply DictFacts.get_set_other.
Qed.

(** The last item with a key decides the value under the key. *)
Lemma fold_set_get_last items1 k v items2 d :
  ~ In k (map fst items2) ->
  Dict.get k (fold_set (items1 ++ (k, v) :: items2) d) = Some v.
Proof.
  intros H. unfold fold_set. rewrite fold_left_app. simpl.
  fold (fold_set items1 d).
  fold (fold_set items2 (Dict.set k v (fold_set items1 d))).
  rewrite fold_set_get_other by assumption. apply DictFacts.get_set_same.
Qed.

Lemma set_absent k v d : ~ In k (Dict.keys d) -> Dict.set k v d = (d ++ [(k, v)])%list.
Proof.
  induction d as [|[k' v'] d IH]; simpl; [reflexivity|].
  intros H. destruct (String.eqb k k') eqn:E.
  - apply String.eqb_eq in E. subst k'. exfalso. apply H. now left.
  - rewrite IH; [reflexivity|]. intros Hin. apply H. now right.
Qed.

Lemma set_present_keys k v d : In k (Dict.keys d) -> Dict.keys (Dict.set k v d) = Dict.keys d.
Proof.
  intros H. rewrite DictFacts.keys_set.
  apply existsb_eqb_In in H. now rewrite H.
Qed.

Lemma get_some_keys k v d : Dict.get k d = Some v -> In k (Dict.keys d).
Proof.
  intros H. destruct (in_dec string_dec k (Dict.keys d)) as [Hin|Hn]; [assumption|].
  apply DictFacts.get_none_keys in Hn. congruence.
Qed.

End FoldSet.

Section Keyed.
Variable g : string -> WebEndpoint.

Lemma set_keyed_present k d : keyed g d -> In k (Dict.keys d) -> Dict.set k (g k) d = d.
Proof.
  unfold keyed. induction d as [|[k' v'] d IH]; simpl; [tauto|].
  intros Hk Hin. inversion Hk as [|? ? Hv Hd]; subst. simpl in Hv.
  destruct (String.eqb k k') eqn:E.
  - apply String.eqb_eq in E. now subst.
  - apply String.eqb_neq in E. rewrite IH; [reflexivity|assumption|].
    destruct Hin as [H|H]; [congruence|assumption].
Qed.

Variable fqdn : string.

Lemma loop_snoc d k v :
  endpoint_for_loop (d ++ [(k, v)]) fqdn
  = match endpoint_for_loop d fqdn with
    | Ok ep => Ok ep
    | Raise _ => if PyStr.endswith fqdn k then Ok v
                 else Raise (ValueError ("There is no endpoint capable of serving: " ++ fqdn))
    end.
Proof.
  induction d as [|[k' v'] d IH]; simpl; [reflexivity|].
  destruct (PyStr.endswith fqdn k'); [reflexivity|assumption].
Qed.

Lemma loop_raise_keys d e k :
  endpoint_for_loop d fqdn = Raise e -> In k (Dict.keys d) -> PyStr.endswith fqdn k = false.
Proof.
  induction d as [|[k' v'] d IH]; simpl; [tauto|].
  destruct (PyStr.endswith fqdn k') eqn:E; [discriminate|].
  intros H [<-|Hin]; [assumption|now apply IH].
Qed.

Lemma loop_fold_set ks :
  forall d, keyed g d ->
    endpoint_for_loop (fold_set (map (fun k => (k, g k)) ks) d) fqdn
    = match endpoint_for_loop d fqdn with
      | Ok ep => Ok ep
      | Raise _ => first_match g fqdn ks
      end.
Proof.
  induction ks as [|k ks IH]; intros d Hd; simpl.
  - unfold first_match. simpl.
    destruct (endpoint_for_loop d fqdn) as [ep|e] eqn:E; [reflexivity|].
    now destruct (endpoint_for_loop_raise _ _ _ E) as [-> _].
  - destruct (in_dec string_dec k (Dict.keys d)) as [Hin|Hn].
    + rewrite set_keyed_present by assumption. rewrite IH by assumption.
      destruct (endpoint_for_loop d fqdn) as [ep|e] eqn:E; [reflexivity|].
      unfold first_match. simpl. now rewrite (loop_raise_keys _ _ _ E Hin).
    + rewrite set_absent by assumption. rewrite IH.
      * rewrite loop_snoc.
        destruct (endpoint_for_loop d fqdn) as [ep|e]; [reflexivity|].
        unfold first_match. simpl. destruct (PyStr.endswith fqdn k); reflexivity.
      * apply Forall_app. split; [assumption|]. now repeat constructor.
Qed.

End Keyed.

End OfferFacts.

(** X17. After a resource offer the endpoint and node registries hold
    each key once; their keys are the domains and the node ids of the
    offer; a node id offered more than once keeps the stats offered
    last; and the offer sets the readiness flag and touches neither the
    tunnels nor the trace. *)
Theorem resource_offer_registries :
  forall (Stats : Type)
         (WebEndpoint_init : option Connection -> string -> WebEndpoint)
         (Node_init : option Connection -> string -> Stats -> Node)
         (TaggedCollection_init : list Volume.t -> TaggedCollection.t)
         (msg : ResourceOffer Stats) (s : Session),
    let s' := _resource_offer Stats WebEndpoint_init Node_init TaggedCollection_init
                              msg s in
    Dict.wf (endpoints (loc (world s')))
    /\ Dict.wf (nodes (loc (world s')))
    /\ (forall d, In d (Dict.keys (endpoints (loc (world s'))))
                  <-> In d (offer_domains Stats msg))
    /\ (forall k, In k (Dict.keys (nodes (loc (world s'))))
                  <-> In k (map fst (offer_nodes Stats msg)))
    /\ (forall before k stats after,
          offer_nodes Stats msg = (before ++ (k, stats) :: after)%list ->
          ~ In k (map fst after) ->
          Dict.get k (nodes (loc (world s')))
          = Some (Node_init (conn (loc (world s))) k stats))
    /\ ready s' = true
    /\ tunnels (loc (world s')) = tunnels (loc (world s))
    /\ trace (world s') = trace (world s).
Proof.
  intros Stats WebEndpoint_init Node_init TaggedCollection_init msg s s'.
  subst s'. unfold _resource_offer, dict_of. simpl.
  repeat split; try reflexivity.
  - apply (OfferFacts.fold_set_wf _ []). constructor.
  - apply (OfferFacts.fold_set_wf _ []). constructor.
  - intros H. apply (OfferFacts.fold_set_keys _ []) in H.
    rewrite map_map in H. simpl in H. rewrite map_id in H. tauto.
  - intros H. apply (OfferFacts.fold_set_keys _ []).
    rewrite map_map. simpl. rewrite map_id. tauto.
  - intros H. apply (OfferFacts.fold_set_keys _ []) in H.
    rewrite map_map in H. simpl in H. tauto.
  - intros H. apply (OfferFacts.fold_set_keys _ []).
    rewrite map_map. simpl. tauto.
  - intros before k stats after Hmsg Hlast. rewrite Hmsg, map_app. simpl.
    apply OfferFacts.fold_set_get_last.
    rewrite map_map. simpl. exact Hlast.
Qed.

Lemma resource_offer_registries_witness :
  Dict.get "n1"
    (nodes (loc (world
       (_resource_offer Z (fun _ d => {| ep_domain := d; ep_clusters := [] |})
          (fun _ k st => {| node_pk := k; stats_cpu := st; stats_memory := st |})
          (fun vols => vols)
          {| offer_domains := ["my.com"];
             offer_nodes := [("n1", 1%Z); ("n2", 2%Z); ("n1", 3%Z)];
             offer_volumes := [] |}
          {| world := example_world; last_best_nodes := None; ready := false |}))))
  = Some {| node_pk := "n1"; stats_cpu := 3; stats_memory := 3 |}.
Proof.
  pose proof (resource_offer_registries Z
                (fun _ d => {| ep_domain := d; ep_clusters := [] |})
                (fun _ k st => {| node_pk := k; stats_cpu := st; stats_memory := st |})
                (fun vols => vols)
                {| offer_domains := ["my.com"];
                   offer_nodes := [("n1", 1%Z); ("n2", 2%Z); ("n1", 3%Z)];
                   offer_volumes := [] |}
                {| world := example_world; last_best_nodes := None; ready := false |})
    as (_ & _ & _ & _ & H & _).
  apply (H [("n1", 1%Z); ("n2", 2%Z)] "n1" 3%Z [] eq_refl).
  intros [].
Defined.

(** X18. After a resource offer, [endpoint_for] gives a name the endpoint
    made for the first domain of the offer that the name ends with, and
    raises its [ValueError] when the name ends with none of the offered
    domains. *)
Theorem endpoint_for_after_offer :
  forall (Stats : Type)
         (WebEndpoint_init : option Connection -> string -> WebEndpoint)
         (Node_init : option Connection -> string -> Stats -> Node)
         (TaggedCollection_init : list Volume.t -> TaggedCollection.t)
         (msg : ResourceOffer Stats) (s : Session) (fqdn : string),
    endpoint_for
      (loc (world (_resource_offer Stats WebEndpoint_init Node_init
                                   TaggedCollection_init msg s)))
      fqdn
    = match find (fun d => PyStr.endswith fqdn d) (offer_domains Stats msg) with
      | Some d => Ok (WebEndpoint_init (conn (loc (world s))) d)
      | None => Raise (ValueError ("There is no endpoint capable of serving: " ++ fqdn))
      end.
Proof.
  intros Stats WebEndpoint_init Node_init TaggedCollection_init msg s fqdn.
  unfold endpoint_for, Dict.items, _resource_offer, dict_of. simpl.
  apply (OfferFacts.loop_fold_set
           (WebEndpoint_init (conn (loc (world s)))) fqdn (offer_domains Stats msg) []).
  constructor.
Qed.

(** X19. [_update_stats] never adds, drops or reorders a node.  For a
    node id the location does not know it only writes a debug line: the
    location and the ranking cache stay as they are.  For a known id it
    replaces that node by the updated one, leaves every other node, and
    clears the ranking cache. *)
Theorem update_stats_keeps_nodes :
  forall (Stats : Type) (str_of_node : string -> string)
         (Node_update_stats : Node -> Stats -> Node)
         (node_pk : string) (stats : Stats) (s : Session),
    let s' := _update_stats Stats str_of_node Node_update_stats node_pk stats s in
    Dict.keys (nodes (loc (world s'))) = Dict.keys (nodes (loc (world s)))
    /\ match Dict.get node_pk (nodes (loc (world s))) with
       | None =>
           loc (world s') = loc (world s)
           /\ last_best_nodes s' = last_best_nodes s
           /\ map ev_call (trace (world s'))
              = (map ev_call (trace (world s))
                 ++ [Logging DEBUG
                       ("Received updated stats from a node we didn't know existed: "
                        ++ str_of_node node_pk)])%list
       | Some node =>
           Dict.get node_pk (nodes (loc (world s')))
           = Some (Node_update_stats node stats)
           /\ (forall k, k <> node_pk ->
                 Dict.get k (nodes (loc (world s'))) = Dict.get k (nodes (loc (world s))))
           /\ last_best_nodes s' = None
           /\ trace (world s') = trace (world s)
       end.
Proof.
  intros Stats str_of_node Node_update_stats node_pk stats s s'. subst s'.
  unfold _update_stats.
  destruct (Dict.get node_pk (nodes (loc (world s)))) as [node|] eqn:Hget; simpl.
  - split; [apply OfferFacts.set_present_keys; eapply OfferFacts.get_some_keys; eauto|].
    split; [apply DictFacts.get_set_same|].
    split; [intros k Hk; now apply DictFacts.get_set_other|]. split; reflexivity.
  - split; [reflexivity|]. split; [reflexivity|]. split; [reflexivity|].
    now rewrite map_app.
Qed.
